(** * mpyw/feature: context-carried feature flags

    A shallow embedding of the Go package [feature] (feature.go,
    inspection.go, gostring.go) together with the small part of the Go
    run time it relies on: dynamically typed interface values and the
    comma-ok type assertion, [context.Context] value chains, allocation
    of identity tokens, [runtime.Caller] and the [fmt] verbs the package
    uses. *)

From Stdlib Require Import String Ascii List Bool NArith ZArith Arith Lia.
From Stdlib Require Import Eqdep_dec HexString DecimalString.
Import ListNotations.
Open Scope string_scope.

Set Implicit Arguments.

(* ================================================================== *)
(** * Go values *)
(* ================================================================== *)

(** The types of the client program.  [utype] are its concrete
    (non-interface) types besides [bool], [itype] its interface types;
    [implements] is the method-set check of the language.  The [fmt],
    [strconv] and [reflect] renderings the package calls are part of the
    same environment. *)
Class GoTypes : Type := {
  utype : Type;
  utype_eq_dec : forall a b : utype, {a = b} + {a <> b};
  uval : utype -> Type;
  uzero : forall t : utype, uval t;
  itype : Type;
  implements : utype -> itype -> bool;
  bool_implements : itype -> bool;
  (* fmt's %v on a value of a concrete type *)
  fmt_v_user : forall t : utype, uval t -> string;
  (* fmt's %q on a string (strconv.Quote) *)
  fmt_q : string -> string;
  (* reflect.Type.String() *)
  utype_String : utype -> string;
  itype_String : itype -> string
}.

Section Values.
Context {GT : GoTypes}.

(** Dynamic (run-time) types: what an interface value can hold. *)
Inductive rtype : Type :=
| RBool
| RUser (t : utype).

Definition rtype_eq_dec (a b : rtype) : {a = b} + {a <> b}.
Proof.
  destruct a as [|a], b as [|b].
  - left; reflexivity.
  - right; discriminate.
  - right; discriminate.
  - destruct (utype_eq_dec a b) as [e|n].
    + left; exact (f_equal RUser e).
    + right; intro H; apply n; injection H; trivial.
Defined.

Definition rval (r : rtype) : Type :=
  match r with RBool => bool | RUser t => uval t end.

Definition rzero (r : rtype) : rval r :=
  match r as r0 return rval r0 with RBool => false | RUser t => uzero t end.

(** [sat i r]: the dynamic type [r] implements the interface [i]. *)
Definition sat (i : itype) (r : rtype) : bool :=
  match r with
  | RBool => bool_implements i
  | RUser t => implements t i
  end.

(** A non-nil interface value: a dynamic type and a value of it. *)
Inductive dyn : Type :=
| Dyn (r : rtype) (v : rval r).

(** [any]: [None] is the nil interface. *)
Definition any : Type := option dyn.

(** A value of interface type [i]: nil, or a boxed value whose dynamic
    type implements [i]. *)
Inductive iface (i : itype) : Type :=
| inil
| ibox (r : rtype) (v : rval r) (H : Is_true (sat i r)).
Arguments inil {i}.

(** Static types a key can be instantiated at ([V any]). *)
Inductive gotype : Type :=
| TConc (r : rtype)
| TIface (i : itype).

Definition tval (V : gotype) : Type :=
  match V with
  | TConc r => rval r
  | TIface i => iface i
  end.

(** [*new(V)]: the zero value. *)
Definition zeroValue (V : gotype) : tval V :=
  match V as V0 return tval V0 with
  | TConc r => rzero r
  | TIface i => inil
  end.

(** Conversion of a [V] to [any] (passing it as an [any] argument). A nil
    interface value converts to the nil [any]. *)
Definition toAny (V : gotype) : tval V -> any :=
  match V as V0 return tval V0 -> any with
  | TConc r => fun v => Some (Dyn r v)
  | TIface i => fun v =>
      match v with
      | inil => None
      | ibox _ r x _ => Some (Dyn r x)
      end
  end.

Definition boxIf (i : itype) (r : rtype) (x : rval r) : iface i * bool :=
  match sat i r as b return (Is_true b -> iface i) -> iface i * bool with
  | true => fun mk => (mk I, true)
  | false => fun _ => (inil, false)
  end (fun H => ibox i r x H).

(** The comma-ok type assertion [val, ok := x.(V)]: it never panics;
    when the assertion does not hold, [val] is the zero value of [V].
    A nil [x] never satisfies it. *)
Definition typeAssert (V : gotype) (x : any) : tval V * bool :=
  match V as V0 return tval V0 * bool with
  | TConc r =>
      match x with
      | Some (Dyn r' v) =>
          match rtype_eq_dec r' r with
          | left e => (eq_rect r' rval v r e, true)
          | right _ => (rzero r, false)
          end
      | None => (rzero r, false)
      end
  | TIface i =>
      match x with
      | Some (Dyn r' v) => boxIf i r' v
      | None => (inil, false)
      end
  end.

(** The dynamic type of [x] is (assignable to) [V]. *)
Definition hasType (V : gotype) (x : any) : Prop :=
  match x with
  | None => False
  | Some (Dyn r _) =>
      match V with
      | TConc r0 => r = r0
      | TIface i => Is_true (sat i r)
      end
  end.

(** fmt's %v. *)
Definition fmt_v_r (r : rtype) : rval r -> string :=
  match r as r0 return rval r0 -> string with
  | RBool => fun b : bool => if b then "true" else "false"
  | RUser t => fmt_v_user t
  end.

Definition fmt_v (V : gotype) : tval V -> string :=
  match V as V0 return tval V0 -> string with
  | TConc r => fmt_v_r r
  | TIface i => fun v =>
      match v with
      | inil => "<nil>"
      | ibox _ r x _ => fmt_v_r r x
      end
  end.

(** The name [reflect] gives the type [V] (its [Type.String()]). *)
Definition typeName (V : gotype) : string :=
  match V with
  | TConc RBool => "bool"
  | TConc (RUser t) => utype_String t
  | TIface i => itype_String i
  end.

End Values.

(** [bool] as a value type. *)
Abbreviation TBool := (TConc RBool).

Arguments inil {GT i}.

(* ================================================================== *)
(** * Identity tokens and the heap *)
(* ================================================================== *)

(** An [*opaque] is an address.  [opaque] has a one-byte field, so every
    live [opaque] object has an address of its own; the heap is the list
    of the addresses in use, and the allocator hands out one that is not
    in it (and is not nil). *)
Definition addr : Type := N.
Definition heap : Type := list addr.

Class GoHeap : Type := {
  fresh : heap -> addr;
  fresh_spec : forall h : heap, ~ In (fresh h) h;
  fresh_nonnil : forall h : heap, fresh h <> 0%N
}.

(** Code that allocates threads the heap. *)
Definition M (A : Type) : Type := heap -> A * heap.
Definition ret {A : Type} (a : A) : M A := fun h => (a, h).
Definition bind {A B : Type} (m : M A) (f : A -> M B) : M B :=
  fun h => let (a, h') := m h in f a h'.
Notation "x <- m ;; f" := (bind m (fun x => f))
  (at level 61, m at next level, right associativity).

(** [new(opaque)]. *)
Definition new_opaque {GH : GoHeap} : M addr :=
  fun h => (fresh h, fresh h :: h).

(** fmt's %p on a pointer and %d on a line number. *)
Definition fmt_p (p : addr) : string := HexString.of_N p.
Definition fmt_d (n : N) : string := NilZero.string_of_uint (N.to_uint n).

(* ================================================================== *)
(** * runtime.Caller *)
(* ================================================================== *)

(** A call stack is the list of the call sites that are open, innermost
    first.  [runtime.Caller(skip)] reports the site [skip] frames up,
    where 0 is the site of the call to [runtime.Caller] itself, and is
    not ok when the stack has no such frame. *)
Record frame : Type := Frame { file : string; line : N }.
Definition stack : Type := list frame.

Definition runtime_Caller (stk : stack) (skip : nat) : option frame :=
  nth_error stk skip.

(** The call sites inside feature.go. *)
Definition feature_go : string := "feature.go".
Definition site_computeKeyName_Caller : frame := Frame feature_go 604.
Definition site_New_computeKeyName : frame := Frame feature_go 663.
Definition site_NewBool_New : frame := Frame feature_go 629.
Definition site_NewNamedBool_NewBool : frame := Frame feature_go 644.
Definition site_NewNamed_New : frame := Frame feature_go 680.

(* ================================================================== *)
(** * Package context (the host scope) *)
(* ================================================================== *)

(** Context keys are compared with [==]: an [*opaque] equals only the
    same pointer, and never a key of another package. *)
Inductive ctxKey : Type :=
| KIdent (p : addr)
| KForeign (n : N).

Definition ctxKey_eqb (a b : ctxKey) : bool :=
  match a, b with
  | KIdent p, KIdent q => N.eqb p q
  | KForeign n, KForeign m => N.eqb n m
  | _, _ => false
  end.

Section Scope.
Context {GT : GoTypes}.

(** A (non-nil) [context.Context], as far as its [Value] method goes:
    the background context, a [valueCtx] node over its parent, or any
    other implementation of the interface. *)
Inductive Context : Type :=
| backgroundCtx
| valueCtx (parent : Context) (key : ctxKey) (val : any)
| foreignCtx (value : ctxKey -> any).

Definition context_Background : Context := backgroundCtx.

(** [context.WithValue(parent, key, val)]. *)
Definition context_WithValue (parent : Context) (key : ctxKey) (val : any)
  : Context :=
  valueCtx parent key val.

(** [ctx.Value(key)]; nil when no node of the chain has the key. *)
Fixpoint Context_Value (ctx : Context) (key : ctxKey) : any :=
  match ctx with
  | backgroundCtx => None
  | valueCtx parent k val =>
      if ctxKey_eqb k key then val else Context_Value parent key
  | foreignCtx value => value key
  end.

End Scope.

(* ================================================================== *)
(** * Package feature: options and constructors (feature.go) *)
(* ================================================================== *)

(** [options]: the debug name and the number of wrapper frames. *)
Record options : Type := { o_name : string; o_depth : nat }.

(** [Option] is [func( *options)]: a state change of the options. *)
Definition Option : Type := options -> options.

Definition WithName (name : string) : Option :=
  fun o => {| o_name := name; o_depth := o_depth o |}.

Definition callerDepthIncr : Option :=
  fun o => {| o_name := o_name o; o_depth := S (o_depth o) |}.

Definition appendCallerDepthIncr (opts : list Option) : list Option :=
  (opts ++ [callerDepthIncr])%list.

Definition defaultOptions : options := {| o_name := ""; o_depth := 0 |}.

Definition optionsFrom (opts : list Option) : options :=
  fold_left (fun o optFn => optFn o) opts defaultOptions.

(** [computeKeyName], entered with the stack [stk] (its own call site in
    [New] on top). *)
Definition computeKeyName (stk : stack) (ident : addr) (name : string)
  (depth : nat) : string :=
  if String.eqb name "" then
    let name := "anonymous@" ++ fmt_p ident in
    match runtime_Caller (site_computeKeyName_Caller :: stk) (1 + depth) with
    | Some (Frame file line) =>
        "anonymous(" ++ file ++ ":" ++ fmt_d line ++ ")@" ++ fmt_p ident
    | None => name
    end
  else name.

(** What a call returns: a value, or a panic with its message. *)
Inductive outcome (A : Type) : Type :=
| Returns (a : A)
| Panics (msg : string).
Arguments Panics {A}.

Section Feature.
Context {GT : GoTypes} {GH : GoHeap}.

(** [key[V]]: the implementation behind the sealed interface [Key[V]]. *)
Record key (V : gotype) : Type := { name : string; ident : addr }.

(** [boolKey] embeds a [key[bool]]. *)
Record boolKey : Type := { boolKey_key : key TBool }.

(** Every constructor is entered with the caller's stack, whose top is
    the site of the call to that constructor. *)
Definition New (V : gotype) (options : list Option) (stk : stack)
  : M (key V) :=
  let options := appendCallerDepthIncr options in
  let opts := optionsFrom options in
  ident <- new_opaque ;;
  ret {| name := computeKeyName (site_New_computeKeyName :: stk) ident
                   (o_name opts) (o_depth opts);
         ident := ident |}.

Definition NewBool (options : list Option) (stk : stack) : M boolKey :=
  let options := appendCallerDepthIncr options in
  k <- New TBool options (site_NewBool_New :: stk) ;;
  ret {| boolKey_key := k |}.

Definition NewNamedBool (name : string) (options : list Option)
  (stk : stack) : M boolKey :=
  let options := appendCallerDepthIncr options in
  NewBool (WithName name :: options) (site_NewNamedBool_NewBool :: stk).

Definition NewNamed (V : gotype) (name : string) (options : list Option)
  (stk : stack) : M (key V) :=
  let options := appendCallerDepthIncr options in
  New V (WithName name :: options) (site_NewNamed_New :: stk).

(** A construction call as client code can write it: the package exports
    no way to build an [Option] besides [WithName], so the options of a
    call are the names of its [WithName]s, in order. *)
Inductive ctor : gotype -> Type :=
| CallNew (V : gotype) (names : list string) : ctor V
| CallNewNamed (V : gotype) (name : string) (names : list string) : ctor V
| CallNewBool (names : list string) : ctor TBool
| CallNewNamedBool (name : string) (names : list string) : ctor TBool.

Definition construct (V : gotype) (c : ctor V) (stk : stack) : M (key V) :=
  match c in ctor V0 return M (key V0) with
  | CallNew V0 names => New V0 (map WithName names) stk
  | CallNewNamed V0 n names => NewNamed V0 n (map WithName names) stk
  | CallNewBool names =>
      b <- NewBool (map WithName names) stk ;; ret (boolKey_key b)
  | CallNewNamedBool n names =>
      b <- NewNamedBool n (map WithName names) stk ;; ret (boolKey_key b)
  end.

(** The name a call passes: its last [WithName] wins, the name argument
    of [NewNamed] and [NewNamedBool] being the first of them; none is the
    empty name. *)
Definition suppliedName (V : gotype) (c : ctor V) : string :=
  match c with
  | CallNew _ names => last names ""
  | CallNewNamed _ n names => last (n :: names) ""
  | CallNewBool names => last names ""
  | CallNewNamedBool n names => last (n :: names) ""
  end.

(** Two accessors that come from two separate construction calls of one
    run, in either order; other objects ([extra]) may have been allocated
    in between. *)
Definition separatelyConstructed (VA VB : gotype) (A : key VA) (B : key VB)
  : Prop :=
  exists (h extra : heap) (cA : ctor VA) (cB : ctor VB) (stkA stkB : stack),
    (A = fst (construct cA stkA h) /\
     B = fst (construct cB stkB (extra ++ snd (construct cA stkA h))%list))
    \/
    (B = fst (construct cB stkB h) /\
     A = fst (construct cA stkA (extra ++ snd (construct cB stkB h))%list)).

(* ================================================================== *)
(** * Inspection (inspection.go) *)
(* ================================================================== *)

(** [key.String]. *)
Definition key_String (V : gotype) (k : key V) : string := name k.

(** [Inspection[V]]; [Key] is the [key[V]] behind the [Key[V]] interface
    value that [Inspect] stores. *)
Record Inspection (V : gotype) : Type := {
  Key : key V;
  Value : tval V;
  Ok : bool
}.

Definition Inspection_Get (V : gotype) (i : Inspection V) : tval V :=
  Value i.

Definition Inspection_TryGet (V : gotype) (i : Inspection V)
  : tval V * bool :=
  (Value i, Ok i).

Definition Inspection_GetOrDefault (V : gotype) (i : Inspection V)
  (defaultValue : tval V) : tval V :=
  if Ok i then Value i else defaultValue.

Definition Inspection_MustGet (V : gotype) (i : Inspection V)
  : outcome (tval V) :=
  if negb (Ok i) then
    Panics ("key " ++ key_String (Key i) ++ " is not set in context")
  else Returns (Value i).

Definition Inspection_IsSet (V : gotype) (i : Inspection V) : bool := Ok i.

Definition Inspection_IsNotSet (V : gotype) (i : Inspection V) : bool :=
  negb (Ok i).

Definition Inspection_String (V : gotype) (i : Inspection V) : string :=
  if negb (Ok i) then key_String (Key i) ++ ": <not set>"
  else key_String (Key i) ++ ": " ++ fmt_v V (Value i).

Record BoolInspection : Type := { BoolInspection_Inspection : Inspection TBool }.

Definition BoolInspection_Enabled (i : BoolInspection) : bool :=
  Value (BoolInspection_Inspection i).

Definition BoolInspection_Disabled (i : BoolInspection) : bool :=
  negb (BoolInspection_Enabled i).

Definition BoolInspection_ExplicitlyDisabled (i : BoolInspection) : bool :=
  Ok (BoolInspection_Inspection i) && negb (Value (BoolInspection_Inspection i)).

Definition BoolInspection_String (i : BoolInspection) : string :=
  Inspection_String (BoolInspection_Inspection i).

(* ================================================================== *)
(** * Key and BoolKey methods (feature.go) *)
(* ================================================================== *)

Definition key_WithValue (V : gotype) (k : key V) (ctx : Context)
  (value : tval V) : Context :=
  context_WithValue ctx (KIdent (ident k)) (toAny V value).

Definition key_TryGet (V : gotype) (k : key V) (ctx : Context)
  : tval V * bool :=
  typeAssert V (Context_Value ctx (KIdent (ident k))).

Definition key_Inspect (V : gotype) (k : key V) (ctx : Context)
  : Inspection V :=
  let (val, ok) := key_TryGet k ctx in
  {| Key := k; Value := val; Ok := ok |}.

Definition key_Get (V : gotype) (k : key V) (ctx : Context) : tval V :=
  Inspection_Get (key_Inspect k ctx).

Definition key_GetOrDefault (V : gotype) (k : key V) (ctx : Context)
  (defaultValue : tval V) : tval V :=
  Inspection_GetOrDefault (key_Inspect k ctx) defaultValue.

Definition key_MustGet (V : gotype) (k : key V) (ctx : Context)
  : outcome (tval V) :=
  Inspection_MustGet (key_Inspect k ctx).

Definition key_IsSet (V : gotype) (k : key V) (ctx : Context) : bool :=
  Inspection_IsSet (key_Inspect k ctx).

Definition key_IsNotSet (V : gotype) (k : key V) (ctx : Context) : bool :=
  Inspection_IsNotSet (key_Inspect k ctx).

Definition boolKey_InspectBool (k : boolKey) (ctx : Context) : BoolInspection :=
  {| BoolInspection_Inspection := key_Inspect (boolKey_key k) ctx |}.

Definition boolKey_Enabled (k : boolKey) (ctx : Context) : bool :=
  BoolInspection_Enabled (boolKey_InspectBool k ctx).

Definition boolKey_Disabled (k : boolKey) (ctx : Context) : bool :=
  BoolInspection_Disabled (boolKey_InspectBool k ctx).

Definition boolKey_ExplicitlyDisabled (k : boolKey) (ctx : Context) : bool :=
  BoolInspection_ExplicitlyDisabled (boolKey_InspectBool k ctx).

Definition boolKey_WithEnabled (k : boolKey) (ctx : Context) : Context :=
  key_WithValue (boolKey_key k) ctx true.

Definition boolKey_WithDisabled (k : boolKey) (ctx : Context) : Context :=
  key_WithValue (boolKey_key k) ctx false.

(** [key.DebugValue], of the revision of feature.go that precedes
    [Inspect] (same [key], [String] and [TryGet]). *)
Definition key_DebugValue (V : gotype) (k : key V) (ctx : Context) : string :=
  let keyName := key_String k in
  let (val, ok) := key_TryGet k ctx in
  if negb ok then keyName ++ ": <not set>"
  else keyName ++ ": " ++ fmt_v V val.

(* ================================================================== *)
(** * Syntax representation (gostring.go) *)
(* ================================================================== *)

(** [key.GoString] as gostring.go has it, the form the package's tests
    (gostring_test.go) require.  The revision of feature.go that still
    carries a [GoString] of its own printed a struct literal
    (feature.Key[T]{name: ...}) instead; gostring.go replaces it. *)
Definition key_GoString (V : gotype) (k : key V) : string :=
  "feature.New[" ++ typeName V ++ "](feature.WithName(" ++ fmt_q (name k) ++ "))".

Definition boolKey_GoString (k : boolKey) : string :=
  "feature.NewBool(feature.WithName(" ++ fmt_q (name (boolKey_key k)) ++ "))".

End Feature.

(* ================================================================== *)
(** * Evaluating a syntax representation *)
(* ================================================================== *)

(** Reading the text of a constructor call back: the expression is cut
    at its fixed parts, the type argument and the string literal are
    handed to the Go front end, and the call is made. *)

(** [p ++ r] without its prefix [p]. *)
Fixpoint stripPrefix (p s : string) : option string :=
  match p with
  | EmptyString => Some s
  | String c p' =>
      match s with
      | String d s' => if Ascii.eqb c d then stripPrefix p' s' else None
      | EmptyString => None
      end
  end.

(** [q ++ suf] without its suffix [suf]. *)
Fixpoint stripSuffix (suf s : string) : option string :=
  if String.eqb s suf then Some EmptyString
  else match s with
       | EmptyString => None
       | String c s' => option_map (String c) (stripSuffix suf s')
       end.

(** The text before and after the first occurrence of [sep]. *)
Fixpoint splitAt (sep s : string) : option (string * string) :=
  match stripPrefix sep s with
  | Some r => Some (EmptyString, r)
  | None =>
      match s with
      | EmptyString => None
      | String c s' =>
          match splitAt sep s' with
          | Some (a, b) => Some (String c a, b)
          | None => None
          end
      end
  end.

(** The type argument and the literal of feature.New[T](feature.WithName(Q)). *)
Definition parseNew (text : string) : option (string * string) :=
  match stripPrefix "feature.New[" text with
  | Some r =>
      match splitAt "](feature.WithName(" r with
      | Some (T, r') =>
          match stripSuffix "))" r' with
          | Some Q => Some (T, Q)
          | None => None
          end
      | None => None
      end
  | None => None
  end.

(** The literal of feature.NewBool(feature.WithName(Q)). *)
Definition parseNewBool (text : string) : option string :=
  match stripPrefix "feature.NewBool(feature.WithName(" text with
  | Some r => stripSuffix "))" r
  | None => None
  end.

(** The type argument is cut at the first bracket followed by a
    parenthesis, which is right for type expressions without one. *)
Fixpoint noParen (s : string) : bool :=
  match s with
  | EmptyString => true
  | String c s' => negb (Ascii.eqb c "(") && noParen s'
  end.

(** The Go front end where the text is evaluated: the type a type
    expression denotes there (none when it does not resolve), and the
    value of a string literal, which undoes %q ([strconv.Unquote] of
    [strconv.Quote]). *)
Class GoSyntax {GT : GoTypes} : Type := {
  typeOf : string -> option gotype;
  Unquote : string -> option string;
  Unquote_fmt_q : forall s : string, Unquote (fmt_q s) = Some s
}.

Section Eval.
Context {GT : GoTypes} {GH : GoHeap} {GS : GoSyntax}.

(** What a constructor expression evaluates to. *)
Inductive accessor : Type :=
| AKey (V : gotype) (k : key V)
| ABoolKey (b : boolKey).

(** Evaluating the text [text] at a call site with stack [stk]; [None]
    when the text is not one of the two calls, its type argument does
    not resolve, or its literal is malformed. *)
Definition evalExpr (text : string) (stk : stack) : option (M accessor) :=
  match parseNewBool text with
  | Some Q =>
      match Unquote Q with
      | Some n => Some (b <- NewBool [WithName n] stk ;; ret (ABoolKey b))
      | None => None
      end
  | None =>
      match parseNew text with
      | Some (T, Q) =>
          match typeOf T, Unquote Q with
          | Some V, Some n => Some (k <- New V [WithName n] stk ;; ret (AKey k))
          | _, _ => None
          end
      | None => None
      end
  end.

End Eval.

(* ================================================================== *)
(** * The first revision of the package *)
(* ================================================================== *)

(** In its first revision the package resolved the display name in
    [String] itself, from the stored name, the token and an optional
    [StringerFunc]; call sites were not yet recorded. *)
Module Rev0.

Definition StringerFunc : Type := string -> string.

Definition defaultStringer (name : string) : string := name.

(** [key[V]] with its [stringer]; [None] is the nil func. *)
Record key : Type := {
  name : string;
  stringer : option StringerFunc;
  ident : addr
}.

Definition key_String (k : key) : string :=
  let name := if String.eqb (name k) "" then "anonymous@" ++ fmt_p (ident k)
              else name k in
  let stringer := match stringer k with
                  | None => defaultStringer
                  | Some f => f
                  end in
  stringer name.

End Rev0.

(* ================================================================== *)
(** * A client program *)
(* ================================================================== *)

(** A small client: the concrete types [int], [string], a pointer to
    an error struct and a struct type [Config] of package main, the
    interfaces [any] and [error], and a heap that hands out increasing
    addresses. *)
Module Demo.

Inductive ut : Type := UInt | UString | UErrorString | UConfig.
Inductive it : Type := IAny | IError.

Definition ut_eq_dec (a b : ut) : {a = b} + {a <> b}.
Proof. decide equality. Defined.

Definition ut_val (t : ut) : Type :=
  match t with
  | UInt => Z
  | UString => string
  | UErrorString => string
  | UConfig => Z
  end.

Definition ut_zero (t : ut) : ut_val t :=
  match t as t0 return ut_val t0 with
  | UInt => 0%Z
  | UString => EmptyString
  | UErrorString => EmptyString
  | UConfig => 0%Z
  end.

Definition ut_implements (t : ut) (i : it) : bool :=
  match i, t with
  | IAny, _ => true
  | IError, UErrorString => true
  | IError, _ => false
  end.

Definition ut_fmt_v (t : ut) : ut_val t -> string :=
  match t as t0 return ut_val t0 -> string with
  | UInt => fun z => NilZero.string_of_int (Z.to_int z)
  | UString => fun s => s
  | UErrorString => fun s => s
  | UConfig => fun z => "{" ++ NilZero.string_of_int (Z.to_int z) ++ "}"
  end.

Definition quote : string := String (ascii_of_nat 34) EmptyString.

(** [strconv.Quote] on text that needs no escape. *)
Definition plain_q (s : string) : string := quote ++ s ++ quote.

#[export] Instance types : GoTypes := {|
  utype := ut;
  utype_eq_dec := ut_eq_dec;
  uval := ut_val;
  uzero := ut_zero;
  itype := it;
  implements := ut_implements;
  bool_implements := fun i => match i with IAny => true | IError => false end;
  fmt_v_user := ut_fmt_v;
  fmt_q := plain_q;
  utype_String := fun t =>
    match t with
    | UInt => "int"
    | UString => "string"
    | UErrorString => "*errors.errorString"
    | UConfig => "main.Config"
    end;
  itype_String := fun i =>
    match i with IAny => "interface {}" | IError => "error" end
|}.

Definition RString : rtype := RUser UString.
Definition TInt : gotype := TConc (RUser UInt).
Definition TString : gotype := TConc (RUser UString).
Definition TAny : gotype := TIface IAny.
Definition TError : gotype := TIface IError.
Definition TConfig : gotype := TConc (RUser UConfig).

Definition top (h : heap) : N := fold_right N.max 0%N h.
Definition bump (h : heap) : addr := N.succ (top h).

Lemma top_ge (h : heap) (a : addr) : In a h -> (a <= top h)%N.
Proof.
  induction h as [|b h IH]; simpl; intros H.
  - contradiction.
  - destruct H as [->|H]; [lia | specialize (IH H); lia].
Qed.

Lemma bump_fresh (h : heap) : ~ In (bump h) h.
Proof.
  intros H. apply top_ge in H. unfold bump in H. lia.
Qed.

Lemma bump_nonnil (h : heap) : bump h <> 0%N.
Proof. unfold bump. lia. Qed.

#[export] Instance bumpHeap : GoHeap := {|
  fresh := bump;
  fresh_spec := bump_fresh;
  fresh_nonnil := bump_nonnil
|}.

(** Client call sites and heap at start. *)
Definition main_go (l : N) : stack := [Frame "main.go" l].
Definition h0 : heap := [].

(** [var A = feature.New[int]()] at main.go:10, then
    [var B = feature.New[int]()] at main.go:11. *)
Definition A : key TInt := fst (construct (CallNew TInt []) (main_go 10) h0).
Definition hA : heap := snd (construct (CallNew TInt []) (main_go 10) h0).
Definition B : key TInt := fst (construct (CallNew TInt []) (main_go 11) hA).
Definition hB : heap := snd (construct (CallNew TInt []) (main_go 11) hA).

(** [var K = feature.New[any]()] and [var Flag = feature.NewNamedBool("flag")]. *)
Definition K : key TAny := fst (construct (CallNew TAny []) (main_go 12) hB).
Definition Flag : boolKey :=
  fst (NewNamedBool "flag" [] (main_go 13) (ident K :: hB)).

End Demo.

(* ================================================================== *)
(** * The revision of feature.go before Inspect *)
(* ================================================================== *)

(** Before [Inspect] existed the reads were written straight over
    [TryGet] (first half of feature.go); [key], [String], [TryGet],
    [WithValue] and the constructors are those of the later revision. *)
Module Rev1.
Section Rev1.
Context {GT : GoTypes}.

Definition key_Get (V : gotype) (k : key V) (ctx : Context) : tval V :=
  let (val, _) := key_TryGet k ctx in val.

Definition key_GetOrDefault (V : gotype) (k : key V) (ctx : Context)
  (defaultValue : tval V) : tval V :=
  let (val, ok) := key_TryGet k ctx in
  if ok then val else defaultValue.

Definition key_MustGet (V : gotype) (k : key V) (ctx : Context)
  : outcome (tval V) :=
  let (val, ok) := key_TryGet k ctx in
  if negb ok then Panics ("key " ++ key_String k ++ " is not set in context")
  else Returns val.

Definition key_IsSet (V : gotype) (k : key V) (ctx : Context) : bool :=
  let (_, ok) := key_TryGet k ctx in ok.

Definition key_IsNotSet (V : gotype) (k : key V) (ctx : Context) : bool :=
  negb (key_IsSet k ctx).

Definition boolKey_Enabled (k : boolKey) (ctx : Context) : bool :=
  key_Get (boolKey_key k) ctx.

Definition boolKey_Disabled (k : boolKey) (ctx : Context) : bool :=
  negb (boolKey_Enabled k ctx).

Definition boolKey_ExplicitlyDisabled (k : boolKey) (ctx : Context) : bool :=
  let (val, ok) := key_TryGet (boolKey_key k) ctx in
  ok && negb val.

End Rev1.
End Rev1.

(* ================================================================== *)
(** * Options and constructor of the first revision *)
(* ================================================================== *)

(** The first revision's [options] carry the name and the stringer;
    [WithStringer] may be handed the nil func. *)
Module Rev0New.

Record options : Type := {
  o_name : string;
  o_stringer : option Rev0.StringerFunc
}.

Definition Option : Type := options -> options.

Definition WithName (name : string) : Option :=
  fun o => {| o_name := name; o_stringer := o_stringer o |}.

Definition WithStringer (f : option Rev0.StringerFunc) : Option :=
  fun o => {| o_name := o_name o; o_stringer := f |}.

Definition defaultOptions : options :=
  {| o_name := ""; o_stringer := Some Rev0.defaultStringer |}.

Definition optionsFrom (opts : list Option) : options :=
  fold_left (fun o optFn => optFn o) opts defaultOptions.

Definition New {GH : GoHeap} (options : list Option) : M Rev0.key :=
  let opts := optionsFrom options in
  ident <- new_opaque ;;
  ret {| Rev0.name := o_name opts;
         Rev0.stringer := o_stringer opts;
         Rev0.ident := ident |}.

(** The options client code can write. *)
Inductive arg : Type :=
| ArgName (name : string)
| ArgStringer (f : option Rev0.StringerFunc).

Definition option_of (a : arg) : Option :=
  match a with
  | ArgName n => WithName n
  | ArgStringer f => WithStringer f
  end.

End Rev0New.

(* ================================================================== *)
(** * Client-side sequences *)
(* ================================================================== *)

Section Sequences.
Context {GT : GoTypes} {GH : GoHeap}.

(** A chain of [context.WithValue] calls over [s], first bind first. *)
Definition withValues (s : Context) (binds : list (ctxKey * any)) : Context :=
  fold_left (fun c b => context_WithValue c (fst b) (snd b)) binds s.

(** A construction call with its value type and the caller's stack. *)
Record call : Type := Call {
  call_type : gotype;
  call_ctor : ctor call_type;
  call_stack : stack
}.

(** A run of construction calls; the tokens of the accessors, in order. *)
Fixpoint constructAll (cs : list call) : M (list addr) :=
  match cs with
  | [] => ret []
  | c :: rest =>
      k <- construct (call_ctor c) (call_stack c) ;;
      ids <- constructAll rest ;;
      ret (ident k :: ids)
  end.

(** An option of the later revisions: a [WithName] or a depth
    increment. *)
Definition option_of (a : option string) : Option :=
  match a with
  | Some n => WithName n
  | None => callerDepthIncr
  end.

End Sequences.

(* ================================================================== *)
(** * Properties of the run-time model *)
(* ================================================================== *)

Section ValueFacts.
Context {GT : GoTypes}.

Lemma ctxKey_eqb_refl (a : ctxKey) : ctxKey_eqb a a = true.
Proof. destruct a; simpl; apply N.eqb_refl. Qed.

Lemma ctxKey_eqb_eq (a b : ctxKey) : ctxKey_eqb a b = true <-> a = b.
Proof.
  split.
  - destruct a, b; simpl; intros H; try discriminate;
      apply N.eqb_eq in H; now subst.
  - intros ->. apply ctxKey_eqb_refl.
Qed.

Lemma ctxKey_eqb_neq (a b : ctxKey) : a <> b -> ctxKey_eqb a b = false.
Proof.
  intros H. destruct (ctxKey_eqb a b) eqn:E; [|reflexivity].
  apply ctxKey_eqb_eq in E. contradiction.
Qed.

Lemma rtype_eq_dec_refl (r : rtype) : rtype_eq_dec r r = left eq_refl.
Proof.
  destruct (rtype_eq_dec r r) as [e|n]; [|contradiction].
  f_equal. apply UIP_dec. exact rtype_eq_dec.
Qed.

Lemma boxIf_gen (A : Type) (b : bool) (mk : Is_true b -> A) (z : A)
  (H : Is_true b) :
  match b as b0 return (Is_true b0 -> A) -> A * bool with
  | true => fun mk0 => (mk0 I, true)
  | false => fun _ => (z, false)
  end mk = (mk H, true).
Proof.
  destruct b; simpl; [now destruct H | contradiction].
Qed.

Lemma boxIf_sat (i : itype) (r : rtype) (x : rval r) (H : Is_true (sat i r)) :
  boxIf i r x = (ibox i r x H, true).
Proof.
  unfold boxIf.
  exact (boxIf_gen (sat i r) (fun H0 => ibox i r x H0) inil H).
Qed.

Lemma boxIf_unsat (i : itype) (r : rtype) (x : rval r) :
  sat i r = false -> boxIf i r x = (inil, false).
Proof.
  unfold boxIf.
  generalize (fun H0 : Is_true (sat i r) => ibox i r x H0).
  destruct (sat i r); [discriminate | reflexivity].
Qed.

(** Asserting the nil interface never holds. *)
Lemma typeAssert_nil (V : gotype) : typeAssert V None = (zeroValue V, false).
Proof. destruct V; reflexivity. Qed.

(** A failed assertion leaves the zero value. *)
Lemma typeAssert_not_ok (V : gotype) (x : any) :
  snd (typeAssert V x) = false -> typeAssert V x = (zeroValue V, false).
Proof.
  destruct V as [r|i]; destruct x as [[r' v]|]; simpl; try reflexivity.
  - destruct (rtype_eq_dec r' r); simpl; [discriminate | reflexivity].
  - destruct (sat i r') eqn:E.
    + assert (H : Is_true (sat i r')) by (rewrite E; exact I).
      rewrite (boxIf_sat i r' v H). discriminate.
    + rewrite (boxIf_unsat i r' v E). reflexivity.
Qed.

(** The assertion holds exactly on values whose dynamic type is [V]. *)
Lemma typeAssert_ok_iff (V : gotype) (x : any) :
  snd (typeAssert V x) = true <-> hasType V x.
Proof.
  destruct V as [r|i]; destruct x as [[r' v]|]; simpl;
    try (split; [discriminate | contradiction]).
  - destruct (rtype_eq_dec r' r); simpl; split; intros; congruence.
  - destruct (sat i r') eqn:E.
    + assert (H : Is_true (sat i r')) by (rewrite E; exact I).
      rewrite (boxIf_sat i r' v H). simpl. tauto.
    + rewrite (boxIf_unsat i r' v E). simpl. split; [discriminate | contradiction].
Qed.

(** A value of a concrete type survives the trip through [any]. *)
Lemma typeAssert_toAny_conc (r : rtype) (v : rval r) :
  typeAssert (TConc r) (toAny (TConc r) v) = (v, true).
Proof. simpl. rewrite rtype_eq_dec_refl. reflexivity. Qed.

(** So does a non-nil value of an interface type. *)
Lemma typeAssert_toAny_box (i : itype) (r : rtype) (x : rval r)
  (H : Is_true (sat i r)) :
  typeAssert (TIface i) (toAny (TIface i) (ibox i r x H)) = (ibox i r x H, true).
Proof. simpl. apply boxIf_sat. Qed.

(** A nil value of an interface type does not. *)
Lemma typeAssert_toAny_inil (i : itype) :
  typeAssert (TIface i) (toAny (TIface i) inil) = (inil, false).
Proof. reflexivity. Qed.

Lemma Context_Value_same (s : Context) (k : ctxKey) (x : any) :
  Context_Value (context_WithValue s k x) k = x.
Proof. simpl. now rewrite ctxKey_eqb_refl. Qed.

Lemma Context_Value_other (s : Context) (k k' : ctxKey) (x : any) :
  k' <> k -> Context_Value (context_WithValue s k x) k' = Context_Value s k'.
Proof.
  intros H. simpl. rewrite ctxKey_eqb_neq; [reflexivity | congruence].
Qed.

(** No context is its own child. *)
Lemma valueCtx_neq_parent (s : Context) (k : ctxKey) (x : any) :
  valueCtx s k x <> s.
Proof.
  revert k x. induction s as [|p IH k0 x0|f]; intros k x H; try discriminate.
  injection H as Hp _ _. exact (IH _ _ Hp).
Qed.

End ValueFacts.

(* ================================================================== *)
(** * Properties of the package *)
(* ================================================================== *)

Section FeatureFacts.
Context {GT : GoTypes} {GH : GoHeap}.

(** ** Reads *)

Lemma key_Inspect_fields (V : gotype) (k : key V) (s : Context) :
  key_Inspect k s =
  {| Key := k; Value := fst (key_TryGet k s); Ok := snd (key_TryGet k s) |}.
Proof. unfold key_Inspect. now destruct (key_TryGet k s). Qed.

Lemma key_Get_fst (V : gotype) (k : key V) (s : Context) :
  key_Get k s = fst (key_TryGet k s).
Proof. unfold key_Get. now rewrite key_Inspect_fields. Qed.

Lemma key_IsSet_snd (V : gotype) (k : key V) (s : Context) :
  key_IsSet k s = snd (key_TryGet k s).
Proof. unfold key_IsSet. now rewrite key_Inspect_fields. Qed.

Lemma key_TryGet_pair (V : gotype) (k : key V) (s : Context) :
  key_TryGet k s = (key_Get k s, key_IsSet k s).
Proof. rewrite key_Get_fst, key_IsSet_snd. now destruct (key_TryGet k s). Qed.

Lemma key_IsNotSet_negb (V : gotype) (k : key V) (s : Context) :
  key_IsNotSet k s = negb (key_IsSet k s).
Proof. reflexivity. Qed.

(** An absent key reads as the zero value. *)
Lemma key_TryGet_unset (V : gotype) (k : key V) (s : Context) :
  key_IsSet k s = false -> key_TryGet k s = (zeroValue V, false).
Proof.
  rewrite key_IsSet_snd. unfold key_TryGet. apply typeAssert_not_ok.
Qed.

Lemma key_TryGet_nil (V : gotype) (k : key V) (s : Context) :
  Context_Value s (KIdent (ident k)) = None ->
  key_TryGet k s = (zeroValue V, false).
Proof. unfold key_TryGet. intros ->. apply typeAssert_nil. Qed.

(** Reading a key right after binding it asserts the bound value. *)
Lemma key_TryGet_bound (V : gotype) (k : key V) (s : Context) (v : tval V) :
  key_TryGet k (key_WithValue k s v) = typeAssert V (toAny V v).
Proof.
  unfold key_TryGet, key_WithValue. now rewrite Context_Value_same.
Qed.

(** Binding under one token leaves the reads under another alone. *)
Lemma key_TryGet_frame (V W : gotype) (k : key V) (k2 : key W)
  (s : Context) (v : tval V) :
  ident k2 <> ident k ->
  key_TryGet k2 (key_WithValue k s v) = key_TryGet k2 s.
Proof.
  intros H. unfold key_TryGet, key_WithValue.
  rewrite Context_Value_other; [reflexivity | congruence].
Qed.

(** The round trip at a concrete value type, zero value included. *)
Lemma key_roundtrip_conc (r : rtype) (k : key (TConc r)) (s : Context)
  (v : rval r) :
  key_TryGet k (key_WithValue k s v) = (v, true).
Proof. rewrite key_TryGet_bound. apply typeAssert_toAny_conc. Qed.

(** The round trip at an interface type, for a value that is not nil. *)
Lemma key_roundtrip_box (i : itype) (k : key (TIface i)) (s : Context)
  (r : rtype) (x : rval r) (H : Is_true (sat i r)) :
  key_TryGet k (key_WithValue k s (ibox i r x H)) = (ibox i r x H, true).
Proof. rewrite key_TryGet_bound. apply typeAssert_toAny_box. Qed.

(** Binding the nil value of an interface type reads back as unset. *)
Lemma key_roundtrip_inil (i : itype) (k : key (TIface i)) (s : Context) :
  key_TryGet k (key_WithValue k s inil) = (inil, false).
Proof. rewrite key_TryGet_bound. reflexivity. Qed.

(** ** Constructors *)

Lemma New_run (V : gotype) (opts : list Option) (stk : stack) (h : heap) :
  New V opts stk h =
  ({| name := computeKeyName (site_New_computeKeyName :: stk) (fresh h)
                (o_name (optionsFrom (appendCallerDepthIncr opts)))
                (o_depth (optionsFrom (appendCallerDepthIncr opts)));
      ident := fresh h |},
   fresh h :: h).
Proof. reflexivity. Qed.

(** Every construction allocates one token, which is the accessor's. *)
Lemma construct_ident (V : gotype) (c : ctor V) (stk : stack) (h : heap) :
  ident (fst (construct c stk h)) = fresh h /\
  snd (construct c stk h) = fresh h :: h.
Proof. destruct c; split; reflexivity. Qed.

Lemma separatelyConstructed_ident (VA VB : gotype) (A : key VA) (B : key VB) :
  separatelyConstructed A B -> ident B <> ident A.
Proof.
  intros (h & extra & cA & cB & stkA & stkB & [[-> ->] | [-> ->]]).
  - destruct (construct_ident cA stkA h) as [EA ES]. rewrite ES.
    destruct (construct_ident cB stkB (extra ++ fresh h :: h)%list) as [EB _].
    rewrite EA, EB. intros E.
    apply (fresh_spec (extra ++ fresh h :: h)%list).
    rewrite E. apply in_or_app. right. now left.
  - destruct (construct_ident cB stkB h) as [EB ES]. rewrite ES.
    destruct (construct_ident cA stkA (extra ++ fresh h :: h)%list) as [EA _].
    rewrite EA, EB. intros E.
    apply (fresh_spec (extra ++ fresh h :: h)%list).
    rewrite <- E. apply in_or_app. right. now left.
Qed.

(** The token of an accessor is never the nil pointer. *)
Lemma construct_ident_nonnil (V : gotype) (c : ctor V) (stk : stack)
  (h : heap) :
  ident (fst (construct c stk h)) <> 0%N.
Proof.
  destruct (construct_ident c stk h) as [-> _]. apply fresh_nonnil.
Qed.

(** ** Names *)

(** The first revision: with the default stringer a name is shown as it
    is, and no name as anonymous@token. *)
Lemma Rev0_key_String (n : string) (p : addr) :
  Rev0.key_String {| Rev0.name := n; Rev0.stringer := None; Rev0.ident := p |}
  = (if String.eqb n "" then "anonymous@" ++ fmt_p p else n) /\
  Rev0.key_String
    {| Rev0.name := n; Rev0.stringer := Some Rev0.defaultStringer;
       Rev0.ident := p |}
  = (if String.eqb n "" then "anonymous@" ++ fmt_p p else n).
Proof. split; reflexivity. Qed.

Lemma last_cons_default (n d : string) (names : list string) :
  last (n :: names) d = last names n.
Proof.
  revert n d. induction names as [|m names IH]; intros n d; [reflexivity|].
  change (last (n :: m :: names) d) with (last (m :: names) d).
  now rewrite (IH m d), (IH m n).
Qed.

(** Applying [WithName] options: the last one wins, the depth stays. *)
Lemma fold_WithName (names : list string) (o : options) :
  fold_left (fun o optFn => optFn o) (map WithName names) o =
  {| o_name := last names (o_name o); o_depth := o_depth o |}.
Proof.
  revert o. induction names as [|n names IH]; intros o.
  - now destruct o.
  - simpl map. simpl fold_left. rewrite IH.
    unfold WithName at 1 2. cbn [o_name o_depth].
    now rewrite last_cons_default.
Qed.

Lemma fold_callerDepthIncr (d : nat) (o : options) :
  fold_left (fun o optFn => optFn o) (repeat callerDepthIncr d) o =
  {| o_name := o_name o; o_depth := d + o_depth o |}.
Proof.
  revert o. induction d as [|d IH]; intros o.
  - now destruct o.
  - simpl. rewrite IH. unfold callerDepthIncr. simpl. f_equal. lia.
Qed.

(** The options of a call: its supplied name, and one level of depth per
    constructor the call went through. *)
Lemma optionsFrom_names (names : list string) (d : nat) :
  optionsFrom (map WithName names ++ repeat callerDepthIncr d) =
  {| o_name := last names ""; o_depth := d |}.
Proof.
  unfold optionsFrom. rewrite fold_left_app, fold_WithName,
    fold_callerDepthIncr. simpl. f_equal. lia.
Qed.

(** A resolved name is never empty. *)
Lemma computeKeyName_nonempty (stk : stack) (p : addr) (n : string) (d : nat) :
  String.eqb (computeKeyName stk p n d) "" = false.
Proof.
  unfold computeKeyName. destruct (String.eqb n "") eqn:E; [|exact E].
  destruct (runtime_Caller (site_computeKeyName_Caller :: stk) (1 + d))
    as [[f l]|]; reflexivity.
Qed.

Lemma computeKeyName_named (stk : stack) (p : addr) (n : string) (d : nat) :
  String.eqb n "" = false -> computeKeyName stk p n d = n.
Proof. unfold computeKeyName. now intros ->. Qed.

Lemma construct_name_nonempty (V : gotype) (c : ctor V) (stk : stack)
  (h : heap) :
  String.eqb (name (fst (construct c stk h))) "" = false.
Proof. destruct c; apply computeKeyName_nonempty. Qed.

(** [New] with the one option [WithName n], [n] not empty. *)
Lemma New_WithName (V : gotype) (n : string) (stk : stack) (h : heap) :
  String.eqb n "" = false ->
  New V [WithName n] stk h = ({| name := n; ident := fresh h |}, fresh h :: h).
Proof.
  intros E. rewrite New_run. f_equal. f_equal.
  change (appendCallerDepthIncr [WithName n])
    with (map WithName [n] ++ repeat callerDepthIncr 1)%list.
  rewrite optionsFrom_names. now apply computeKeyName_named.
Qed.

Lemma NewBool_WithName (n : string) (stk : stack) (h : heap) :
  String.eqb n "" = false ->
  NewBool [WithName n] stk h =
  ({| boolKey_key := {| name := n; ident := fresh h |} |}, fresh h :: h).
Proof.
  intros E. unfold NewBool, bind, ret. rewrite New_run. f_equal. f_equal. f_equal.
  change (appendCallerDepthIncr (appendCallerDepthIncr [WithName n]))
    with (map WithName [n] ++ repeat callerDepthIncr 2)%list.
  rewrite optionsFrom_names. now apply computeKeyName_named.
Qed.

End FeatureFacts.

(* ================================================================== *)
(** * The claims of the specification *)
(* ================================================================== *)

Section Claims.
Context {GT : GoTypes} {GH : GoHeap}.

(** C1, on the scopes where [B] is not set.  Identity uniqueness: for
    two accessors [A] and [B] that come from separate construction calls
    (any of New, NewBool, NewNamed, NewNamedBool, whatever their value
    types and names), and every scope [s] on which [B] is not set,
    binding any value under [A] leaves [B] absent on the resulting scope:
    [B.TryGet] returns the zero value and false, and [B.IsSet] is
    false. *)
Theorem identity_uniqueness (VA VB : gotype) (A : key VA) (B : key VB)
  (s : Context) (v : tval VA) :
  separatelyConstructed A B ->
  key_IsSet B s = false ->
  key_TryGet B (key_WithValue A s v) = (zeroValue VB, false) /\
  key_IsSet B (key_WithValue A s v) = false.
Proof.
  intros Hsep Hunset.
  pose proof (separatelyConstructed_ident Hsep) as Hne.
  rewrite key_IsSet_snd, (key_TryGet_frame A B s v Hne).
  rewrite (key_TryGet_unset B s Hunset). split; reflexivity.
Qed.

(** C3. Type safety against foreign writes: when the value the scope
    holds under [k]'s token is not of type [V] (or is nil), no read
    raises a type-assertion error or yields a value of another type: the
    comma-ok assertion of [TryGet] reports the zero value of [V] and
    false, [Get] returns the zero value of [V], [IsSet] is false, and
    [MustGet] panics with the key-not-set message of an absent key. *)
Theorem foreign_write_reads_absent (V : gotype) (k : key V) (s : Context) :
  ~ hasType V (Context_Value s (KIdent (ident k))) ->
  key_TryGet k s = (zeroValue V, false) /\
  key_Get k s = zeroValue V /\
  key_IsSet k s = false /\
  key_MustGet k s =
    Panics ("key " ++ key_String k ++ " is not set in context").
Proof.
  intros H.
  assert (E : key_TryGet k s = (zeroValue V, false)).
  { unfold key_TryGet. apply typeAssert_not_ok.
    destruct (snd (typeAssert V (Context_Value s (KIdent (ident k))))) eqn:Eok;
      [|reflexivity].
    apply typeAssert_ok_iff in Eok. contradiction. }
  split; [exact E|].
  rewrite key_Get_fst, key_IsSet_snd.
  unfold key_MustGet, Inspection_MustGet.
  rewrite key_Inspect_fields, E. simpl. auto.
Qed.

(** C4. Binding never touches the scope it extends: [k.WithValue(s, v)]
    is a new scope, different from [s], that holds [s] itself as its
    parent; every lookup of a token other than [k]'s gives on it what it
    gives on [s], and so does every read through an accessor with
    another token. *)
Theorem bind_frame (V : gotype) (k : key V) (s : Context) (v : tval V) :
  let s' := key_WithValue k s v in
  s' <> s /\
  s' = valueCtx s (KIdent (ident k)) (toAny V v) /\
  (forall key : ctxKey,
      key <> KIdent (ident k) -> Context_Value s' key = Context_Value s key) /\
  (forall (W : gotype) (k2 : key W),
      ident k2 <> ident k ->
      key_TryGet k2 s' = key_TryGet k2 s /\
      key_Get k2 s' = key_Get k2 s /\
      key_IsSet k2 s' = key_IsSet k2 s /\
      key_Inspect k2 s' = key_Inspect k2 s).
Proof.
  intros s'. subst s'. split; [|split; [|split]].
  - apply valueCtx_neq_parent.
  - reflexivity.
  - intros key Hk. now apply Context_Value_other.
  - intros W k2 Hne.
    pose proof (key_TryGet_frame k k2 s v Hne) as E.
    rewrite !key_Get_fst, !key_IsSet_snd, !key_Inspect_fields, E. auto.
Qed.

(** C5. Three-state boolean: on the background scope, and on any scope
    where the flag is not set, Enabled is false, Disabled is true and
    ExplicitlyDisabled is false; on a scope obtained by WithDisabled they
    are false, true, true; on one obtained by WithEnabled they are true,
    false, false; and ExplicitlyDisabled is true exactly when the flag is
    present with the value false. *)
Theorem three_state_boolean (b : boolKey) (s : Context) :
  (boolKey_Enabled b context_Background = false /\
   boolKey_Disabled b context_Background = true /\
   boolKey_ExplicitlyDisabled b context_Background = false) /\
  (key_IsSet (boolKey_key b) s = false ->
   boolKey_Enabled b s = false /\
   boolKey_Disabled b s = true /\
   boolKey_ExplicitlyDisabled b s = false) /\
  (boolKey_Enabled b (boolKey_WithDisabled b s) = false /\
   boolKey_Disabled b (boolKey_WithDisabled b s) = true /\
   boolKey_ExplicitlyDisabled b (boolKey_WithDisabled b s) = true) /\
  (boolKey_Enabled b (boolKey_WithEnabled b s) = true /\
   boolKey_Disabled b (boolKey_WithEnabled b s) = false /\
   boolKey_ExplicitlyDisabled b (boolKey_WithEnabled b s) = false) /\
  (boolKey_ExplicitlyDisabled b s = true <->
   key_TryGet (boolKey_key b) s = (false, true)).
Proof.
  assert (R : forall c : Context,
    boolKey_Enabled b c = fst (key_TryGet (boolKey_key b) c) /\
    boolKey_Disabled b c = negb (fst (key_TryGet (boolKey_key b) c)) /\
    boolKey_ExplicitlyDisabled b c =
      snd (key_TryGet (boolKey_key b) c) &&
      negb (fst (key_TryGet (boolKey_key b) c))).
  { intros c.
    unfold boolKey_Enabled, boolKey_Disabled, boolKey_ExplicitlyDisabled,
      BoolInspection_Disabled, BoolInspection_ExplicitlyDisabled,
      BoolInspection_Enabled, boolKey_InspectBool.
    rewrite key_Inspect_fields. simpl. auto. }
  split; [|split; [|split; [|split]]].
  - destruct (R context_Background) as (-> & -> & ->). simpl. auto.
  - intros Hunset. apply key_TryGet_unset in Hunset.
    destruct (R s) as (-> & -> & ->). rewrite Hunset. simpl. auto.
  - destruct (R (boolKey_WithDisabled b s)) as (-> & -> & ->).
    unfold boolKey_WithDisabled.
    rewrite (key_roundtrip_conc (r := RBool)). simpl. auto.
  - destruct (R (boolKey_WithEnabled b s)) as (-> & -> & ->).
    unfold boolKey_WithEnabled.
    rewrite (key_roundtrip_conc (r := RBool)). simpl. auto.
  - destruct (R s) as (_ & _ & ->).
    destruct (key_TryGet (boolKey_key b) s) as [val ok]. simpl.
    destruct ok, val; simpl; split; intros H; congruence.
Qed.

(** C7. Inspection freeze: the snapshot [k.Inspect(s)] holds the key and
    what [k] read on [s]; it carries no scope, so after a later
    [k.WithValue(s, other)] its Get, TryGet, IsSet and String are still
    those of [s], while a read on the extended scope sees [other]. *)
Theorem inspection_freeze (V : gotype) (k : key V) (s : Context)
  (other : tval V) :
  let insp := key_Inspect k s in
  let s2 := key_WithValue k s other in
  Key insp = k /\
  Inspection_Get insp = key_Get k s /\
  Inspection_TryGet insp = key_TryGet k s /\
  Inspection_IsSet insp = key_IsSet k s /\
  Inspection_String insp =
    (if key_IsSet k s then key_String k ++ ": " ++ fmt_v V (key_Get k s)
     else key_String k ++ ": <not set>") /\
  key_TryGet k s2 = typeAssert V (toAny V other).
Proof.
  intros insp s2. subst insp s2.
  rewrite key_TryGet_bound, key_Get_fst, key_IsSet_snd.
  unfold Inspection_Get, Inspection_TryGet, Inspection_IsSet, Inspection_String.
  rewrite key_Inspect_fields. simpl.
  destruct (key_TryGet k s) as [val ok]. simpl.
  destruct ok; simpl; auto 10.
Qed.

(** The options of a call are its [WithName]s followed by [d] depth
    increments; with them the name is resolved [d] frames above [New]. *)
Ltac resolve_name names d :=
  match goal with
  | |- context [optionsFrom ?opts] =>
      replace opts with (map WithName names ++ repeat callerDepthIncr d)%list
        by (unfold appendCallerDepthIncr; simpl; now rewrite <- ?app_assoc)
  end;
  rewrite optionsFrom_names; cbn [o_name o_depth];
  unfold computeKeyName;
  match goal with
  | |- context [String.eqb ?n EmptyString] =>
      destruct (String.eqb n EmptyString); [|reflexivity]
  end;
  match goal with
  | stk : stack |- _ => destruct stk as [|[? ?] ?]; reflexivity
  end.

(** C8. Naming resolution: for every construction call, when the name
    the call supplies (the name argument of NewNamed and NewNamedBool, or
    that of a WithName option, the last one winning) is not empty, it is
    the display name verbatim; when no name or the empty name is supplied,
    the display name is anonymous(file:line)@token, with the file and
    line of the client's own call to the constructor however many
    constructors forward it, and anonymous@token when the stack gives no
    such frame.  The name is a field of the accessor: no later operation
    changes it. *)
Theorem naming_resolution (V : gotype) (c : ctor V) (stk : stack) (h : heap) :
  let k := fst (construct c stk h) in
  key_String k =
    (if String.eqb (suppliedName c) "" then
       match stk with
       | Frame file line :: _ =>
           "anonymous(" ++ file ++ ":" ++ fmt_d line ++ ")@" ++ fmt_p (ident k)
       | [] => "anonymous@" ++ fmt_p (ident k)
       end
     else suppliedName c) /\
  (forall (s : Context) (v : tval V),
      key_String (Key (key_Inspect k (key_WithValue k s v))) = key_String k).
Proof.
  intros k. subst k. split.
  2:{ intros s v. now rewrite key_Inspect_fields. }
  destruct c as [V names | V n names | names | n names];
    unfold key_String, construct, NewNamedBool, NewNamed, NewBool, bind, ret;
    rewrite New_run; cbn [fst name ident boolKey_key suppliedName].
  - resolve_name names 1.
  - resolve_name (n :: names) 2.
  - resolve_name names 2.
  - resolve_name (n :: names) 3.
Qed.

End Claims.

(* ================================================================== *)
(** * Further properties of the package *)
(* ================================================================== *)

Section Reads.
Context {GT : GoTypes} {GH : GoHeap}.

Lemma key_reads_of_TryGet (V : gotype) (k : key V) (s : Context)
  (v : tval V) :
  key_TryGet k s = (v, true) ->
  key_Get k s = v /\
  key_IsSet k s = true /\
  key_IsNotSet k s = false /\
  key_MustGet k s = Returns v /\
  (forall d : tval V, key_GetOrDefault k s d = v) /\
  key_Inspect k s = {| Key := k; Value := v; Ok := true |}.
Proof.
  intros E.
  unfold key_Get, key_IsSet, key_IsNotSet, key_MustGet, key_GetOrDefault,
    Inspection_Get, Inspection_IsSet, Inspection_IsNotSet, Inspection_MustGet,
    Inspection_GetOrDefault.
  rewrite key_Inspect_fields, E. simpl. auto 10.
Qed.

(** X1. Binding the same key again shadows the earlier binding for good:
    every lookup on the twice-bound scope, and every read through any
    accessor, is what it is on the scope that was bound once with the
    later value. *)
Theorem rebind_shadows (V : gotype) (k : key V) (s : Context)
  (v1 v2 : tval V) :
  (forall key : ctxKey,
      Context_Value (key_WithValue k (key_WithValue k s v1) v2) key =
      Context_Value (key_WithValue k s v2) key) /\
  (forall (W : gotype) (k2 : key W),
      key_TryGet k2 (key_WithValue k (key_WithValue k s v1) v2) =
      key_TryGet k2 (key_WithValue k s v2) /\
      key_Inspect k2 (key_WithValue k (key_WithValue k s v1) v2) =
      key_Inspect k2 (key_WithValue k s v2)).
Proof.
  assert (L : forall key : ctxKey,
      Context_Value (key_WithValue k (key_WithValue k s v1) v2) key =
      Context_Value (key_WithValue k s v2) key).
  { intros key. unfold key_WithValue, context_WithValue.
    cbn [Context_Value].
    now destruct (ctxKey_eqb (KIdent (ident k)) key). }
  split; [exact L|]. intros W k2.
  assert (E : key_TryGet k2 (key_WithValue k (key_WithValue k s v1) v2) =
              key_TryGet k2 (key_WithValue k s v2)).
  { unfold key_TryGet. now rewrite L. }
  split; [exact E|]. now rewrite !key_Inspect_fields, E.
Qed.

(** X2. Binds under two different tokens commute: whichever is made
    first, every lookup and every read on the result is the same. *)
Theorem binds_commute (VA VB : gotype) (a : key VA) (b : key VB)
  (s : Context) (x : tval VA) (y : tval VB) :
  ident a <> ident b ->
  (forall key : ctxKey,
      Context_Value (key_WithValue a (key_WithValue b s y) x) key =
      Context_Value (key_WithValue b (key_WithValue a s x) y) key) /\
  (forall (W : gotype) (k : key W),
      key_TryGet k (key_WithValue a (key_WithValue b s y) x) =
      key_TryGet k (key_WithValue b (key_WithValue a s x) y)).
Proof.
  intros Hne.
  assert (L : forall key : ctxKey,
      Context_Value (key_WithValue a (key_WithValue b s y) x) key =
      Context_Value (key_WithValue b (key_WithValue a s x) y) key).
  { intros key. unfold key_WithValue, context_WithValue.
    cbn [Context_Value].
    destruct (ctxKey_eqb (KIdent (ident a)) key) eqn:Ea;
      destruct (ctxKey_eqb (KIdent (ident b)) key) eqn:Eb; try reflexivity.
    apply ctxKey_eqb_eq in Ea, Eb. congruence. }
  split; [exact L|]. intros W k. unfold key_TryGet. now rewrite L.
Qed.

Lemma withValues_other (binds : list (ctxKey * any)) (s : Context)
  (key : ctxKey) :
  Forall (fun b => fst b <> key) binds ->
  Context_Value (withValues s binds) key = Context_Value s key.
Proof.
  revert s. induction binds as [|b binds IH]; intros s H; [reflexivity|].
  inversion H as [|? ? Hb Hrest]; subst. simpl.
  rewrite (IH _ Hrest). apply Context_Value_other. congruence.
Qed.

(** X3. A bound value stays visible down the chain: after any number of
    later binds under other keys (other tokens or keys of other
    packages), every read through [k] is what it was. *)
Theorem bound_value_persists (V : gotype) (k : key V) (s : Context)
  (binds : list (ctxKey * any)) :
  Forall (fun b => fst b <> KIdent (ident k)) binds ->
  key_TryGet k (withValues s binds) = key_TryGet k s /\
  key_Get k (withValues s binds) = key_Get k s /\
  key_IsSet k (withValues s binds) = key_IsSet k s /\
  key_MustGet k (withValues s binds) = key_MustGet k s /\
  key_Inspect k (withValues s binds) = key_Inspect k s.
Proof.
  intros H.
  assert (E : key_TryGet k (withValues s binds) = key_TryGet k s).
  { unfold key_TryGet. now rewrite withValues_other. }
  unfold key_Get, key_IsSet, key_MustGet.
  rewrite !key_Inspect_fields, E. auto.
Qed.

(** X4. Presence is a type test: [IsSet] is true exactly when the scope
    holds, under the key's token, a non-nil value whose dynamic type is
    [V] (implements [V], for an interface type); [IsNotSet] is true
    exactly otherwise, and then [Get] is the zero value. *)
Theorem presence_is_type_test (V : gotype) (k : key V) (s : Context) :
  (key_IsSet k s = true <-> hasType V (Context_Value s (KIdent (ident k)))) /\
  (key_IsNotSet k s = true <->
     ~ hasType V (Context_Value s (KIdent (ident k)))) /\
  (key_IsNotSet k s = true -> key_Get k s = zeroValue V).
Proof.
  assert (A : key_IsSet k s = true <->
              hasType V (Context_Value s (KIdent (ident k)))).
  { rewrite key_IsSet_snd. unfold key_TryGet. apply typeAssert_ok_iff. }
  split; [exact A | split].
  - rewrite key_IsNotSet_negb. destruct (key_IsSet k s).
    + simpl. split; [discriminate | intros H; exfalso; apply H, A; reflexivity].
    + simpl. split; [intros _ H; apply A in H; discriminate | reflexivity].
  - rewrite key_IsNotSet_negb. intros H.
    rewrite key_Get_fst, key_TryGet_unset; [reflexivity|].
    now destruct (key_IsSet k s).
Qed.

(** X5. At every concrete (non-interface) value type, a bound value,
    the zero value included, is read back by every operation: TryGet
    gives it with true, Get and MustGet give it, IsSet is true, IsNotSet
    false, GetOrDefault ignores its default, and Inspect holds it. *)
Theorem concrete_roundtrip (r : rtype) (k : key (TConc r)) (s : Context)
  (v : rval r) :
  key_TryGet k (key_WithValue k s v) = (v, true) /\
  key_Get k (key_WithValue k s v) = v /\
  key_IsSet k (key_WithValue k s v) = true /\
  key_IsNotSet k (key_WithValue k s v) = false /\
  key_MustGet k (key_WithValue k s v) = Returns v /\
  (forall d : rval r, key_GetOrDefault k (key_WithValue k s v) d = v) /\
  key_Inspect k (key_WithValue k s v) = {| Key := k; Value := v; Ok := true |}.
Proof.
  pose proof (key_roundtrip_conc k s v) as E.
  split; [exact E|]. exact (key_reads_of_TryGet k _ E).
Qed.

(** X6. At an interface value type, a bound value that is not nil is
    read back by every operation, as at a concrete type. *)
Theorem interface_roundtrip (i : itype) (k : key (TIface i)) (s : Context)
  (r : rtype) (x : rval r) (H : Is_true (sat i r)) :
  let v := ibox i r x H in
  key_TryGet k (key_WithValue k s v) = (v, true) /\
  key_Get k (key_WithValue k s v) = v /\
  key_IsSet k (key_WithValue k s v) = true /\
  key_IsNotSet k (key_WithValue k s v) = false /\
  key_MustGet k (key_WithValue k s v) = Returns v /\
  (forall d : iface i, key_GetOrDefault k (key_WithValue k s v) d = v) /\
  key_Inspect k (key_WithValue k s v) = {| Key := k; Value := v; Ok := true |}.
Proof.
  intros v. subst v.
  pose proof (key_roundtrip_box k s r x H) as E.
  split; [exact E|]. exact (key_reads_of_TryGet k _ E).
Qed.

Lemma toAny_typeAssert (V : gotype) (x : any) :
  hasType V x ->
  toAny V (fst (typeAssert V x)) = x /\ snd (typeAssert V x) = true.
Proof.
  destruct V as [r|i]; destruct x as [[r' v]|]; simpl; try contradiction.
  - intros E. subst r'. rewrite rtype_eq_dec_refl. simpl. auto.
  - intros H. rewrite (boxIf_sat i r' v H). simpl. auto.
Qed.

(** X7. GetOrDefault falls back on its default exactly when what the
    scope holds under the key's token is nil or not of type [V] (never
    bound, bound to the nil interface, or a foreign value); otherwise it
    returns the stored value itself, whatever the default. *)
Theorem getOrDefault_stored_or_default (V : gotype) (k : key V) (s : Context)
  (d : tval V) :
  let x := Context_Value s (KIdent (ident k)) in
  (~ hasType V x -> key_GetOrDefault k s d = d) /\
  (hasType V x -> toAny V (key_GetOrDefault k s d) = x).
Proof.
  intros x. subst x.
  assert (R : key_GetOrDefault k s d =
              if snd (key_TryGet k s) then fst (key_TryGet k s) else d).
  { unfold key_GetOrDefault, Inspection_GetOrDefault.
    now rewrite key_Inspect_fields. }
  rewrite R. unfold key_TryGet. split; intros H.
  - destruct (snd (typeAssert V (Context_Value s (KIdent (ident k))))) eqn:E;
      [|reflexivity].
    apply typeAssert_ok_iff in E. contradiction.
  - destruct (toAny_typeAssert V _ H) as [E1 E2]. now rewrite E2.
Qed.

(** X8. A snapshot taken by InspectBool is in exactly one of three
    states: enabled, explicitly disabled, or not set; Disabled covers the
    last two. *)
Theorem boolInspection_states (b : boolKey) (s : Context) :
  let i := boolKey_InspectBool b s in
  let unset := Inspection_IsNotSet (BoolInspection_Inspection i) in
  ((BoolInspection_Enabled i, BoolInspection_ExplicitlyDisabled i, unset)
     = (true, false, false) \/
   (BoolInspection_Enabled i, BoolInspection_ExplicitlyDisabled i, unset)
     = (false, true, false) \/
   (BoolInspection_Enabled i, BoolInspection_ExplicitlyDisabled i, unset)
     = (false, false, true)) /\
  BoolInspection_Disabled i = BoolInspection_ExplicitlyDisabled i || unset.
Proof.
  intros i unset. subst i unset.
  unfold BoolInspection_Enabled, BoolInspection_ExplicitlyDisabled,
    BoolInspection_Disabled, BoolInspection_Enabled, Inspection_IsNotSet,
    boolKey_InspectBool.
  cbn [BoolInspection_Inspection]. rewrite key_Inspect_fields. cbn [Value Ok].
  destruct (snd (key_TryGet (boolKey_key b) s)) eqn:Eok.
  - destruct (fst (key_TryGet (boolKey_key b) s)); simpl; auto.
  - pose proof (key_TryGet_unset (boolKey_key b) s) as E.
    rewrite key_IsSet_snd in E. rewrite (E Eok). simpl. auto.
Qed.

End Reads.

Section Constructors.
Context {GT : GoTypes} {GH : GoHeap}.

(** With [d] wrapper levels recorded and [d - 1] wrapper frames on the
    stack, the name is resolved at the caller's frame. *)
Ltac name_at names d :=
  match goal with
  | |- context [optionsFrom ?opts] =>
      replace opts with (map WithName names ++ repeat callerDepthIncr d)%list
        by (unfold appendCallerDepthIncr; simpl; now rewrite <- ?app_assoc)
  end;
  rewrite optionsFrom_names; cbn [o_name o_depth];
  unfold computeKeyName;
  match goal with
  | |- context [String.eqb ?n EmptyString] =>
      destruct (String.eqb n EmptyString); [|reflexivity]
  end;
  match goal with
  | stk : stack |- _ => destruct stk as [|[? ?] ?]; reflexivity
  end.

Definition resolvedName (supplied : string) (stk : stack) (p : addr) : string :=
  if String.eqb supplied "" then
    match stk with
    | Frame file line :: _ =>
        "anonymous(" ++ file ++ ":" ++ fmt_d line ++ ")@" ++ fmt_p p
    | [] => "anonymous@" ++ fmt_p p
    end
  else supplied.

Lemma New_name (V : gotype) (names : list string) (stk : stack) (h : heap) :
  New V (map WithName names) stk h =
  ({| name := resolvedName (last names "") stk (fresh h); ident := fresh h |},
   fresh h :: h).
Proof.
  rewrite New_run. f_equal. f_equal. unfold resolvedName.
  name_at names 1.
Qed.

Lemma NewNamed_name (V : gotype) (n : string) (names : list string)
  (stk : stack) (h : heap) :
  NewNamed V n (map WithName names) stk h =
  ({| name := resolvedName (last (n :: names) "") stk (fresh h);
      ident := fresh h |},
   fresh h :: h).
Proof.
  unfold NewNamed. rewrite New_run. f_equal. f_equal. unfold resolvedName.
  name_at (n :: names) 2.
Qed.

Lemma NewBool_name (names : list string) (stk : stack) (h : heap) :
  NewBool (map WithName names) stk h =
  ({| boolKey_key :=
        {| name := resolvedName (last names "") stk (fresh h);
           ident := fresh h |} |},
   fresh h :: h).
Proof.
  unfold NewBool, bind, ret. rewrite New_run. f_equal. f_equal. f_equal.
  unfold resolvedName. name_at names 2.
Qed.

Lemma NewNamedBool_name (n : string) (names : list string) (stk : stack)
  (h : heap) :
  NewNamedBool n (map WithName names) stk h =
  ({| boolKey_key :=
        {| name := resolvedName (last (n :: names) "") stk (fresh h);
           ident := fresh h |} |},
   fresh h :: h).
Proof.
  unfold NewNamedBool, NewBool, bind, ret. rewrite New_run.
  f_equal. f_equal. f_equal. unfold resolvedName. name_at (n :: names) 3.
Qed.

Lemma construct_run (V : gotype) (c : ctor V) (stk : stack) (h : heap) :
  construct c stk h =
  ({| name := resolvedName (suppliedName c) stk (fresh h); ident := fresh h |},
   fresh h :: h).
Proof.
  destruct c; cbn [construct suppliedName].
  - apply New_name.
  - apply NewNamed_name.
  - unfold bind, ret. now rewrite NewBool_name.
  - unfold bind, ret. now rewrite NewNamedBool_name.
Qed.

(** X9. The forwarding constructors are transparent: NewNamed(name,
    opts...) returns exactly what New(WithName(name), opts...) returns
    when called from the same place, anonymous call-site name included,
    NewNamedBool(name, opts...) exactly what NewBool(WithName(name),
    opts...) returns, and NewBool wraps what New[bool] returns. *)
Theorem forwarding_constructors_transparent (V : gotype) (n : string)
  (names : list string) (stk : stack) (h : heap) :
  NewNamed V n (map WithName names) stk h =
    New V (WithName n :: map WithName names) stk h /\
  NewNamedBool n (map WithName names) stk h =
    NewBool (WithName n :: map WithName names) stk h /\
  NewBool (map WithName names) stk h =
    (let (k, h') := New TBool (map WithName names) stk h in
     ({| boolKey_key := k |}, h')).
Proof.
  split; [|split].
  - rewrite NewNamed_name.
    change (WithName n :: map WithName names) with (map WithName (n :: names)).
    now rewrite New_name.
  - rewrite NewNamedBool_name.
    change (WithName n :: map WithName names) with (map WithName (n :: names)).
    now rewrite NewBool_name.
  - now rewrite NewBool_name, New_name.
Qed.

(** X10. The display name of a constructed accessor is never empty, and
    when the call supplies no name (or the empty one) it starts with
    anonymous. *)
Theorem display_name_never_empty (V : gotype) (c : ctor V) (stk : stack)
  (h : heap) :
  let k := fst (construct c stk h) in
  key_String k <> "" /\
  (suppliedName c = "" -> String.prefix "anonymous" (key_String k) = true).
Proof.
  intros k. subst k. split.
  - intros E. pose proof (construct_name_nonempty c stk h) as N.
    unfold key_String in E. rewrite E in N. discriminate.
  - intros E. rewrite construct_run. cbn [fst key_String name].
    unfold resolvedName. rewrite E. cbn [String.eqb].
    destruct stk as [|[f l] stk]; reflexivity.
Qed.

Definition option_names (l : list (option string)) : list string :=
  flat_map (fun a => match a with Some n => [n] | None => [] end) l.

Definition option_incrs (l : list (option string)) : nat :=
  length (filter (fun a => match a with Some _ => false | None => true end) l).

Lemma fold_option_of (l : list (option string)) (o : options) :
  fold_left (fun o optFn => optFn o) (map option_of l) o =
  {| o_name := last (option_names l) (o_name o);
     o_depth := option_incrs l + o_depth o |}.
Proof.
  revert o. induction l as [|a l IH]; intros o.
  - now destruct o.
  - simpl map. simpl fold_left. rewrite IH. destruct a as [n|].
    + change (option_names (Some n :: l)) with (n :: option_names l).
      change (option_incrs (Some n :: l)) with (option_incrs l).
      rewrite last_cons_default. reflexivity.
    + change (option_names (None :: l)) with (option_names l).
      change (option_incrs (None :: l)) with (S (option_incrs l)).
      unfold option_of, callerDepthIncr. cbn [o_name o_depth].
      f_equal. lia.
Qed.

(** X11. Options apply in order, whatever their mix: the name that
    results is the one of the last WithName (the empty name if there is
    none), and the depth is the number of increments; WithName never
    changes the depth and an increment never changes the name. *)
Theorem options_apply_in_order (l : list (option string)) :
  optionsFrom (map option_of l) =
  {| o_name := last (option_names l) ""; o_depth := option_incrs l |}.
Proof.
  unfold optionsFrom. rewrite fold_option_of. simpl. f_equal. lia.
Qed.

Lemma constructAll_spec (cs : list call) (h : heap) :
  NoDup (fst (constructAll cs h)) /\
  (forall a : addr, In a (fst (constructAll cs h)) -> ~ In a h /\ a <> 0%N) /\
  length (fst (constructAll cs h)) = length cs /\
  snd (constructAll cs h) = (rev (fst (constructAll cs h)) ++ h)%list.
Proof.
  revert h. induction cs as [|c cs IH]; intros h.
  - simpl. split; [constructor | split; [intros a [] | split; reflexivity]].
  - cbn [constructAll]. unfold bind, ret.
    rewrite construct_run.
    specialize (IH (fresh h :: h)).
    destruct (constructAll cs (fresh h :: h)) as [ids h'].
    cbn [fst snd ident] in *. destruct IH as (ND & NI & LEN & HP).
    split; [|split; [|split]].
    + constructor; [|exact ND]. intros I. apply NI in I.
      apply (proj1 I). now left.
    + intros a [<-|I].
      * split; [apply fresh_spec | apply fresh_nonnil].
      * destruct (NI a I) as [N1 N2]. split; [|exact N2].
        intros I'. apply N1. now right.
    + simpl. now rewrite LEN.
    + rewrite HP. simpl. now rewrite <- app_assoc.
Qed.

(** X12. However many accessors a run constructs, by whichever
    constructors, their tokens are pairwise distinct, none is nil or was
    in use before, and the run allocates exactly one token per call. *)
Theorem tokens_pairwise_distinct (cs : list call) (h : heap) :
  NoDup (fst (constructAll cs h)) /\
  (forall a : addr, In a (fst (constructAll cs h)) -> ~ In a h /\ a <> 0%N) /\
  length (fst (constructAll cs h)) = length cs /\
  length (snd (constructAll cs h)) = length cs + length h.
Proof.
  destruct (constructAll_spec cs h) as (ND & NI & LEN & HP).
  repeat split; try assumption; try (now apply NI).
  rewrite HP, length_app, length_rev, LEN. reflexivity.
Qed.

Lemma append_inv_head (p a b : string) : p ++ a = p ++ b -> a = b.
Proof.
  induction p as [|c p IH]; simpl; intros H; [exact H|].
  injection H as H. now apply IH.
Qed.

Lemma fmt_p_inj (p q : addr) : fmt_p p = fmt_p q -> p = q.
Proof.
  unfold fmt_p. intros H.
  rewrite <- (HexString.to_N_of_N p), <- (HexString.to_N_of_N q).
  now rewrite H.
Qed.

(** X13. Two accessors constructed without a name at the same call
    site (a loop, a helper) have different display names as long as the
    first one's token is still allocated when the second is constructed:
    the name ends with the token. *)
Theorem anonymous_names_differ (VA VB : gotype) (cA : ctor VA) (cB : ctor VB)
  (stkA stkB : stack) (h h' : heap) :
  suppliedName cA = "" ->
  suppliedName cB = "" ->
  hd_error stkA = hd_error stkB ->
  In (ident (fst (construct cA stkA h))) h' ->
  key_String (fst (construct cA stkA h)) <>
  key_String (fst (construct cB stkB h')).
Proof.
  intros EA EB Hhd Hlive. revert Hlive.
  rewrite !construct_run. cbn [fst snd key_String name ident].
  unfold resolvedName. rewrite EA, EB. cbn [String.eqb]. intros Hlive.
  assert (F : fresh h <> fresh h').
  { intros E. apply (fresh_spec h'). now rewrite <- E. }
  destruct stkA as [|[fa la] stkA], stkB as [|[fb lb] stkB];
    try discriminate Hhd.
  - intros E. apply append_inv_head in E. now apply fmt_p_inj in E.
  - injection Hhd as -> ->. intros E.
    do 5 apply append_inv_head in E. now apply fmt_p_inj in E.
Qed.

End Constructors.

Section Revisions.
Context {GT : GoTypes} {GH : GoHeap}.

(** X14. Rewriting the reads over Inspect changed nothing: Get,
    GetOrDefault, MustGet, IsSet, IsNotSet, Enabled, Disabled and
    ExplicitlyDisabled of the revision before Inspect return what the
    later ones return, on every key and scope, and DebugValue is the
    String of the snapshot. *)
Theorem reads_agree_across_revisions (V : gotype) (k : key V) (b : boolKey)
  (s : Context) (d : tval V) :
  Rev1.key_Get k s = key_Get k s /\
  Rev1.key_GetOrDefault k s d = key_GetOrDefault k s d /\
  Rev1.key_MustGet k s = key_MustGet k s /\
  Rev1.key_IsSet k s = key_IsSet k s /\
  Rev1.key_IsNotSet k s = key_IsNotSet k s /\
  Rev1.boolKey_Enabled b s = boolKey_Enabled b s /\
  Rev1.boolKey_Disabled b s = boolKey_Disabled b s /\
  Rev1.boolKey_ExplicitlyDisabled b s = boolKey_ExplicitlyDisabled b s /\
  key_DebugValue k s = Inspection_String (key_Inspect k s).
Proof.
  unfold Rev1.boolKey_Disabled, Rev1.boolKey_Enabled,
    Rev1.boolKey_ExplicitlyDisabled, Rev1.key_IsNotSet, Rev1.key_IsSet,
    Rev1.key_Get, Rev1.key_GetOrDefault, Rev1.key_MustGet.
  unfold boolKey_Disabled, boolKey_Enabled, boolKey_ExplicitlyDisabled,
    boolKey_InspectBool, BoolInspection_Disabled, BoolInspection_Enabled,
    BoolInspection_ExplicitlyDisabled, key_DebugValue,
    key_Get, key_GetOrDefault, key_MustGet, key_IsSet, key_IsNotSet,
    Inspection_Get, Inspection_GetOrDefault, Inspection_MustGet,
    Inspection_IsSet, Inspection_IsNotSet, Inspection_String.
  cbn [BoolInspection_Inspection]. rewrite !key_Inspect_fields. cbn [Value Ok Key].
  destruct (key_TryGet k s) as [val ok].
  destruct (key_TryGet (boolKey_key b) s) as [bval bok].
  cbn [fst snd]. repeat split; reflexivity.
Qed.

Lemma Rev0_optionsFrom_stringer (opts : list Rev0New.Option)
  (f : option Rev0.StringerFunc) :
  Rev0New.optionsFrom (opts ++ [Rev0New.WithStringer f]) =
  {| Rev0New.o_name := Rev0New.o_name (Rev0New.optionsFrom opts);
     Rev0New.o_stringer := f |}.
Proof. unfold Rev0New.optionsFrom. now rewrite fold_left_app. Qed.

(** X15. In the first revision the stringer only ever sees a resolved
    name: for a key built with a last option WithStringer(f), String is
    [f] applied to the stored name, or to anonymous@token when that name
    is empty, never to the empty string; with WithStringer(nil) String is
    that resolved name itself, as with the default stringer. *)
Theorem Rev0_stringer_sees_resolved_name (l : list Rev0New.arg) (h : heap)
  (f : Rev0.StringerFunc) :
  let opts := map Rev0New.option_of l in
  let n := Rev0New.o_name (Rev0New.optionsFrom opts) in
  let resolved :=
    if String.eqb n "" then "anonymous@" ++ fmt_p (fresh h) else n in
  resolved <> "" /\
  Rev0.key_String
    (fst (Rev0New.New (opts ++ [Rev0New.WithStringer (Some f)]) h))
    = f resolved /\
  Rev0.key_String
    (fst (Rev0New.New (opts ++ [Rev0New.WithStringer None]) h))
    = resolved /\
  Rev0.key_String
    (fst (Rev0New.New
            (opts ++ [Rev0New.WithStringer (Some Rev0.defaultStringer)]) h))
    = resolved.
Proof.
  intros opts n resolved. subst resolved n.
  unfold Rev0New.New, bind, ret, new_opaque, Rev0.key_String.
  cbn [fst Rev0.name Rev0.stringer Rev0.ident].
  rewrite !Rev0_optionsFrom_stringer.
  cbn [Rev0New.o_name Rev0New.o_stringer].
  repeat split.
  destruct (String.eqb (Rev0New.o_name (Rev0New.optionsFrom opts)) "") eqn:E.
  - discriminate.
  - intros E'. rewrite E' in E. discriminate.
Qed.

End Revisions.

Section Messages.
Context {GT : GoTypes}.

Lemma length_append (a b : string) :
  String.length (a ++ b) = String.length a + String.length b.
Proof. induction a as [|c a IH]; simpl; [reflexivity | now rewrite IH]. Qed.

Lemma append_inv_tail (a b t : string) : a ++ t = b ++ t -> a = b.
Proof.
  revert b. induction a as [|c a IH]; intros [|c' b] H.
  - reflexivity.
  - apply (f_equal String.length) in H. simpl in H.
    rewrite length_append in H. lia.
  - apply (f_equal String.length) in H. simpl in H.
    rewrite length_append in H. lia.
  - simpl in H. injection H as -> H. f_equal. now apply IH.
Qed.

(** X16. The panic of MustGet names its key unambiguously: two panics,
    of whatever keys on whatever scopes, carry the same message only if
    the keys have the same display name. *)
Theorem mustGet_message_names_key (V W : gotype) (k1 : key V) (k2 : key W)
  (s1 s2 : Context) (msg : string) :
  key_MustGet k1 s1 = Panics msg ->
  key_MustGet k2 s2 = Panics msg ->
  key_String k1 = key_String k2.
Proof.
  unfold key_MustGet, Inspection_MustGet. rewrite !key_Inspect_fields.
  cbn [Ok Key Value].
  destruct (snd (key_TryGet k1 s1)); [discriminate|].
  destruct (snd (key_TryGet k2 s2)); [discriminate|].
  cbn [negb]. intros E1 E2. injection E1 as E1. injection E2 as E2.
  rewrite <- E2 in E1.
  apply (append_inv_head "key "
           (key_String k1 ++ " is not set in context")
           (key_String k2 ++ " is not set in context")) in E1.
  now apply append_inv_tail in E1.
Qed.

End Messages.

Section Syntax.
Context {GT : GoTypes} {GH : GoHeap} {GS : GoSyntax}.

Lemma stripPrefix_app (p r : string) : stripPrefix p (p ++ r) = Some r.
Proof.
  induction p as [|c p IH]; simpl; [reflexivity|].
  now rewrite Ascii.eqb_refl.
Qed.

Lemma eqb_app_cons_false (c : ascii) (q suf : string) :
  String.eqb (String c q ++ suf) suf = false.
Proof.
  destruct (String.eqb (String c q ++ suf) suf) eqn:E; [|reflexivity].
  apply String.eqb_eq in E. apply (f_equal String.length) in E.
  simpl in E. rewrite length_append in E. lia.
Qed.

Lemma stripSuffix_app (q suf : string) : stripSuffix suf (q ++ suf) = Some q.
Proof.
  induction q as [|c q IH].
  - simpl. destruct suf; simpl; now rewrite ?Ascii.eqb_refl, ?String.eqb_refl.
  - change (stripSuffix suf (String c q ++ suf))
      with (if String.eqb (String c q ++ suf) suf then Some EmptyString
            else option_map (String c) (stripSuffix suf (q ++ suf))).
    now rewrite eqb_app_cons_false, IH.
Qed.

Lemma splitAt_eq (sep s : string) :
  splitAt sep s =
  match stripPrefix sep s with
  | Some r => Some (EmptyString, r)
  | None =>
      match s with
      | EmptyString => None
      | String c s' =>
          match splitAt sep s' with
          | Some (a, b) => Some (String c a, b)
          | None => None
          end
      end
  end.
Proof. destruct s; reflexivity. Qed.

(** A bracket followed by a parenthesis first occurs after a text that
    has no parenthesis. *)
Lemma splitAt_first (sep' T r : string) :
  noParen T = true ->
  splitAt (String "]" (String "(" sep'))
    (T ++ String "]" (String "(" (sep' ++ r))) = Some (T, r).
Proof.
  induction T as [|c T IH]; intros H.
  - rewrite splitAt_eq.
    change (String "]" (String "(" (sep' ++ r)))
      with (String "]" (String "(" sep') ++ r).
    change (EmptyString ++ (String "]" (String "(" sep') ++ r))
      with (String "]" (String "(" sep') ++ r).
    now rewrite stripPrefix_app.
  - cbn [noParen] in H. apply andb_prop in H. destruct H as [Hc HT].
    rewrite splitAt_eq.
    assert (N : stripPrefix (String "]" (String "(" sep'))
                  (String c T ++ String "]" (String "(" (sep' ++ r))) = None).
    { cbn [stripPrefix append].
      destruct (Ascii.eqb "]" c); [|reflexivity].
      destruct T as [|d T]; cbn [stripPrefix append].
      - change (Ascii.eqb "(" "]") with false. reflexivity.
      - cbn [noParen] in HT. apply andb_prop in HT. destruct HT as [Hd _].
        rewrite Ascii.eqb_sym. apply negb_true_iff in Hd. now rewrite Hd. }
    rewrite N. cbn [append]. now rewrite (IH HT).
Qed.

(** The text [GoString] prints is read back into its two parts. *)
Lemma parseNew_key_GoString (V : gotype) (k : key V) :
  noParen (typeName V) = true ->
  parseNew (key_GoString k) = Some (typeName V, fmt_q (name k)).
Proof.
  intros H. unfold parseNew, key_GoString.
  rewrite stripPrefix_app.
  assert (E : splitAt "](feature.WithName("
                (typeName V ++ "](feature.WithName(" ++ fmt_q (name k) ++ "))")
              = Some (typeName V, fmt_q (name k) ++ "))"))
    by exact (splitAt_first "feature.WithName(" (typeName V)
                (fmt_q (name k) ++ "))") H).
  now rewrite E, stripSuffix_app.
Qed.

Lemma parseNewBool_key_GoString (V : gotype) (k : key V) :
  parseNewBool (key_GoString k) = None.
Proof. reflexivity. Qed.

Lemma parseNewBool_boolKey_GoString (b : boolKey) :
  parseNewBool (boolKey_GoString b) = Some (fmt_q (name (boolKey_key b))).
Proof.
  unfold parseNewBool, boolKey_GoString.
  now rewrite stripPrefix_app, stripSuffix_app.
Qed.

Lemma evalExpr_key_GoString (V : gotype) (k : key V) (stk : stack) :
  typeOf (typeName V) = Some V ->
  noParen (typeName V) = true ->
  evalExpr (key_GoString k) stk =
  Some (k' <- New V [WithName (name k)] stk ;; ret (AKey k')).
Proof.
  intros HT HP. unfold evalExpr.
  rewrite parseNewBool_key_GoString, (parseNew_key_GoString k HP).
  now rewrite HT, Unquote_fmt_q.
Qed.

Lemma evalExpr_boolKey_GoString (b : boolKey) (stk : stack) :
  evalExpr (boolKey_GoString b) stk =
  Some (b' <- NewBool [WithName (name (boolKey_key b))] stk ;; ret (ABoolKey b')).
Proof.
  unfold evalExpr.
  now rewrite parseNewBool_boolKey_GoString, Unquote_fmt_q.
Qed.


End Syntax.

Section BoundNil.
Context {GT : GoTypes} {GH : GoHeap}.

(** What a read sees after a bind of the nil value of an interface
    type: nothing. *)
Lemma key_reads_bound_nil (i : itype) (k : key (TIface i)) (s : Context) :
  key_MustGet k (key_WithValue k s inil) =
    Panics ("key " ++ key_String k ++ " is not set in context") /\
  Inspection_String (key_Inspect k (key_WithValue k s inil)) =
    key_String k ++ ": <not set>" /\
  key_DebugValue k (key_WithValue k s inil) = key_String k ++ ": <not set>".
Proof.
  unfold key_MustGet, Inspection_MustGet, Inspection_String, key_DebugValue.
  rewrite key_Inspect_fields, key_roundtrip_inil. simpl. auto.
Qed.

(** The rendering of a value bound at a concrete type. *)
Lemma rendering_bound_conc (r : rtype) (k : key (TConc r)) (s : Context)
  (v : rval r) :
  Inspection_String (key_Inspect k (key_WithValue k s v)) =
    key_String k ++ ": " ++ fmt_v (TConc r) v /\
  key_DebugValue k (key_WithValue k s v) =
    key_String k ++ ": " ++ fmt_v (TConc r) v.
Proof.
  unfold Inspection_String, key_DebugValue.
  rewrite key_Inspect_fields, key_roundtrip_conc. simpl. auto.
Qed.

(** The rendering on a scope that holds nothing under the token. *)
Lemma rendering_unbound (V : gotype) (k : key V) (s : Context) :
  Context_Value s (KIdent (ident k)) = None ->
  Inspection_String (key_Inspect k s) = key_String k ++ ": <not set>" /\
  key_DebugValue k s = key_String k ++ ": <not set>".
Proof.
  intros H. unfold Inspection_String, key_DebugValue.
  rewrite key_Inspect_fields, (key_TryGet_nil k s H). simpl. auto.
Qed.

End BoundNil.

(** The Go front end of the client program: the predeclared types and
    interfaces resolve; main.Config and *errors.errorString do not
    (package main cannot be imported and is not in scope under its own
    name, and errorString is not exported). *)
Module DemoSyntax.
Import Demo.

Definition demo_typeOf (T : string) : option gotype :=
  if String.eqb T "int" then Some TInt
  else if String.eqb T "string" then Some TString
  else if String.eqb T "bool" then Some TBool
  else if String.eqb T "error" then Some TError
  else if String.eqb T "interface {}" then Some TAny
  else None.

Definition demo_Unquote (t : string) : option string :=
  match stripPrefix quote t with
  | Some r => stripSuffix quote r
  | None => None
  end.

Lemma demo_Unquote_plain_q (s : string) : demo_Unquote (plain_q s) = Some s.
Proof.
  unfold demo_Unquote, plain_q.
  now rewrite stripPrefix_app, stripSuffix_app.
Qed.

#[export] Instance syntax : GoSyntax := {|
  typeOf := demo_typeOf;
  Unquote := demo_Unquote;
  Unquote_fmt_q := demo_Unquote_plain_q
|}.

End DemoSyntax.

(* ================================================================== *)
(** * The claims on the client program *)
(* ================================================================== *)

Import Demo.
Import DemoSyntax.

Lemma Demo_A_B_separate : separatelyConstructed A B.
Proof.
  exists h0, [], (CallNew TInt []), (CallNew TInt []), (main_go 10), (main_go 11).
  left. split; reflexivity.
Qed.

(** The call-site tests of the package (anonymous_test.go), on the
    model: each constructor reports the line of the client's call. *)
Example anonymous_call_sites :
  key_String (fst (construct (CallNew TInt []) (main_go 19) h0))
    = "anonymous(main.go:19)@0x1" /\
  key_String (fst (construct (CallNewBool []) (main_go 26) h0))
    = "anonymous(main.go:26)@0x1" /\
  key_String (fst (construct (CallNewNamed TInt "" []) (main_go 33) h0))
    = "anonymous(main.go:33)@0x1" /\
  key_String (fst (construct (CallNewNamedBool "" []) (main_go 40) h0))
    = "anonymous(main.go:40)@0x1" /\
  key_String (boolKey_key Flag) = "flag".
Proof. repeat split; reflexivity. Qed.

(** C1, an instance: [B] stays absent on the background scope after a
    bind under [A]. *)
Lemma identity_uniqueness_witness :
  key_TryGet B (key_WithValue A context_Background 7%Z) = (0%Z, false) /\
  key_IsSet B (key_WithValue A context_Background 7%Z) = false.
Proof.
  apply (identity_uniqueness (A := A) (B := B) context_Background 7%Z).
  - exists h0, [], (CallNew TInt []), (CallNew TInt []),
      (main_go 10), (main_go 11).
    left. split; reflexivity.
  - reflexivity.
Defined.

(** C1 does not extend to a scope that already binds [B]: after
    [B.WithValue(ctx, 1)] and then [A.WithValue(ctx, 2)], reading under
    [B] gives 1 and present, not absent. *)
Lemma identity_uniqueness_bound_scope :
  separatelyConstructed A B /\
  (let s := key_WithValue B context_Background 1%Z in
   key_TryGet B (key_WithValue A s 2%Z) = (1%Z, true) /\
   key_TryGet B (key_WithValue A s 2%Z) <> (zeroValue TInt, false) /\
   key_IsSet B (key_WithValue A s 2%Z) = true).
Proof.
  split; [exact Demo_A_B_separate|].
  cbv zeta. split; [reflexivity | split; [discriminate | reflexivity]].
Qed.

(** C2 on the code: with [K] a [Key[any]], after [K.WithValue(ctx, nil)]
    the bound value is the zero value of [any], yet [TryGet] answers
    (nil, false), [IsSet] false and [IsNotSet] true, as for a key that
    was never bound; the same holds for a [Key[error]]. *)
Theorem nil_interface_bind_reads_unset :
  let s := key_WithValue K context_Background (zeroValue TAny) in
  key_TryGet K s = (zeroValue TAny, false) /\
  key_IsSet K s = false /\
  key_IsNotSet K s = true /\
  key_TryGet K s = key_TryGet K context_Background /\
  (forall (E : key TError) (ctx : Context),
      key_IsSet E (key_WithValue E ctx (zeroValue TError)) = false).
Proof.
  cbv zeta. repeat split; try reflexivity.
  intros E ctx. rewrite key_IsSet_snd.
  exact (f_equal snd (key_roundtrip_inil E ctx)).
Qed.

(** C3, an instance: a string stored under the token of the [int] key
    [A] reads as absent. *)
Lemma foreign_write_reads_absent_witness :
  let s := valueCtx context_Background (KIdent (ident A))
             (Some (Dyn RString "oops")) in
  key_TryGet A s = (0%Z, false) /\
  key_Get A s = 0%Z /\
  key_IsSet A s = false /\
  key_MustGet A s =
    Panics "key anonymous(main.go:10)@0x1 is not set in context".
Proof.
  cbv zeta.
  apply (foreign_write_reads_absent A
           (valueCtx context_Background (KIdent (ident A))
              (Some (Dyn RString "oops")))).
  simpl. discriminate.
Defined.

(** C5, an instance: the flag on the background scope. *)
Lemma three_state_boolean_witness :
  boolKey_Enabled Flag context_Background = false /\
  boolKey_Disabled Flag context_Background = true /\
  boolKey_ExplicitlyDisabled Flag context_Background = false.
Proof.
  apply (proj1 (proj2 (three_state_boolean Flag context_Background))).
  reflexivity.
Defined.

(** C6 on the code: with [K] a [Key[any]], after [K.WithValue(ctx, nil)]
    a value is bound, yet [MustGet] panics with the key-not-set message,
    exactly as on the background scope, while bound to a value that is
    not nil it returns that value; the same panic follows the bind of
    nil at every interface type. *)
Theorem mustGet_panics_on_bound_nil :
  key_MustGet K (key_WithValue K context_Background (zeroValue TAny)) =
    Panics "key anonymous(main.go:12)@0x3 is not set in context" /\
  key_MustGet K context_Background =
    Panics "key anonymous(main.go:12)@0x3 is not set in context" /\
  key_MustGet K (key_WithValue K context_Background (ibox IAny RString "x" I)) =
    Returns (ibox IAny RString "x" I) /\
  key_MustGet A (key_WithValue A context_Background 0%Z) = Returns 0%Z /\
  (forall (i : itype) (k : key (TIface i)) (ctx : Context),
      key_MustGet k (key_WithValue k ctx inil) =
        Panics ("key " ++ key_String k ++ " is not set in context")).
Proof.
  repeat split; try reflexivity.
  intros i k ctx. exact (proj1 (key_reads_bound_nil k ctx)).
Qed.

(** C9 on the code: with [K] a [Key[any]], after [K.WithValue(ctx, nil)]
    the key is present with the value nil, which %v prints as <nil>, yet
    [Inspection.String] and [DebugValue] render <not set>, exactly as on
    the background scope; a value that is not nil, and every value of a
    concrete type, is rendered as name, colon, space and value, and a
    scope that holds nothing under the token as <not set>. *)
Theorem rendering_of_bound_nil :
  (let s := key_WithValue K context_Background (zeroValue TAny) in
   fmt_v TAny (zeroValue TAny) = "<nil>" /\
   Inspection_String (key_Inspect K s) = "anonymous(main.go:12)@0x3: <not set>" /\
   key_DebugValue K s = "anonymous(main.go:12)@0x3: <not set>" /\
   Inspection_String (key_Inspect K s) =
     Inspection_String (key_Inspect K context_Background)) /\
  Inspection_String
    (key_Inspect K (key_WithValue K context_Background (ibox IAny RString "x" I)))
    = "anonymous(main.go:12)@0x3: x" /\
  Inspection_String (key_Inspect A (key_WithValue A context_Background 0%Z))
    = "anonymous(main.go:10)@0x1: 0" /\
  (forall (i : itype) (k : key (TIface i)) (ctx : Context),
      Inspection_String (key_Inspect k (key_WithValue k ctx inil)) =
        key_String k ++ ": <not set>" /\
      key_DebugValue k (key_WithValue k ctx inil) =
        key_String k ++ ": <not set>") /\
  (forall (r : rtype) (k : key (TConc r)) (ctx : Context) (v : rval r),
      Inspection_String (key_Inspect k (key_WithValue k ctx v)) =
        key_String k ++ ": " ++ fmt_v (TConc r) v /\
      key_DebugValue k (key_WithValue k ctx v) =
        key_String k ++ ": " ++ fmt_v (TConc r) v) /\
  (forall (V : gotype) (k : key V) (ctx : Context),
      Context_Value ctx (KIdent (ident k)) = None ->
      Inspection_String (key_Inspect k ctx) = key_String k ++ ": <not set>" /\
      key_DebugValue k ctx = key_String k ++ ": <not set>").
Proof.
  split; [cbv zeta; repeat split; reflexivity|].
  split; [reflexivity|]. split; [reflexivity|].
  split; [|split].
  - intros i k ctx. exact (proj2 (key_reads_bound_nil k ctx)).
  - intros r k ctx v. apply rendering_bound_conc.
  - intros V k ctx H. now apply rendering_unbound.
Qed.



(* ================================================================== *)
(** * The further properties on the client program *)
(* ================================================================== *)

(** X2, an instance: [A] and [B] bound in either order. *)
Lemma binds_commute_witness :
  (forall key : ctxKey,
      Context_Value
        (key_WithValue A (key_WithValue B context_Background 2%Z) 1%Z) key =
      Context_Value
        (key_WithValue B (key_WithValue A context_Background 1%Z) 2%Z) key) /\
  (forall (W : gotype) (k : key W),
      key_TryGet k
        (key_WithValue A (key_WithValue B context_Background 2%Z) 1%Z) =
      key_TryGet k
        (key_WithValue B (key_WithValue A context_Background 1%Z) 2%Z)).
Proof.
  apply (binds_commute A B context_Background 1%Z 2%Z).
  vm_compute. discriminate.
Defined.

(** X3, an instance: [A] bound to 5, then a bind under [B] and one under
    a key of another package. *)
Lemma bound_value_persists_witness :
  key_TryGet A
    (withValues (key_WithValue A context_Background 5%Z)
       [(KIdent (ident B), toAny TInt 7%Z); (KForeign 3, None)])
  = (5%Z, true).
Proof.
  rewrite (proj1 (bound_value_persists A
                    (key_WithValue A context_Background 5%Z)
                    (binds := [(KIdent (ident B), toAny TInt 7%Z);
                               (KForeign 3, None)])
                    ltac:(repeat constructor; vm_compute; discriminate))).
  reflexivity.
Defined.

(** X6, an instance: a string bound under the [Key[any]] [K]. *)
Lemma interface_roundtrip_witness :
  key_TryGet K (key_WithValue K context_Background (ibox IAny RString "x" I))
  = (ibox IAny RString "x" I, true).
Proof.
  exact (proj1 (interface_roundtrip K context_Background RString "x" I)).
Defined.

(** X13, an instance: two [New[int]()] at main.go:10, the second while
    the first is live; built after the first one's token was freed, the
    second gets the first one's name. *)
Lemma anonymous_names_differ_witness :
  let A1 := fst (construct (CallNew TInt []) (main_go 10) h0) in
  let A2 := fst (construct (CallNew TInt []) (main_go 10) [ident A1]) in
  let A3 := fst (construct (CallNew TInt []) (main_go 10) h0) in
  key_String A1 = "anonymous(main.go:10)@0x1" /\
  key_String A2 = "anonymous(main.go:10)@0x2" /\
  key_String A3 = key_String A1 /\
  key_String A1 <> key_String A2.
Proof.
  cbv zeta. split; [reflexivity | split; [reflexivity | split; [reflexivity|]]].
  apply (anonymous_names_differ (CallNew TInt []) (CallNew TInt [])
           (main_go 10) (main_go 10) h0
           [ident (fst (construct (CallNew TInt []) (main_go 10) h0))]);
    try reflexivity.
  left. reflexivity.
Defined.

(** X16, an instance: an [int] key and a flag, both named retries,
    panic with the same message; they are two accessors with one display
    name. *)
Lemma mustGet_message_names_key_witness :
  let N1 := fst (construct (CallNewNamed TInt "retries" []) (main_go 40) h0) in
  let N2 :=
    boolKey_key (fst (NewNamedBool "retries" [] (main_go 41) [ident N1])) in
  ident N1 <> ident N2 /\
  key_MustGet N1 context_Background =
    Panics "key retries is not set in context" /\
  key_MustGet N2 (key_WithValue N1 context_Background 3%Z) =
    Panics "key retries is not set in context" /\
  key_String N1 = key_String N2.
Proof.
  cbv zeta. split; [vm_compute; discriminate|].
  split; [reflexivity | split; [reflexivity|]].
  apply (mustGet_message_names_key
           (fst (construct (CallNewNamed TInt "retries" []) (main_go 40) h0))
           (boolKey_key
              (fst (NewNamedBool "retries" [] (main_go 41)
                      [ident (fst (construct (CallNewNamed TInt "retries" [])
                                     (main_go 40) h0))])))
           context_Background
           (key_WithValue
              (fst (construct (CallNewNamed TInt "retries" []) (main_go 40) h0))
              context_Background 3%Z)
           (msg := "key retries is not set in context"));
    reflexivity.
Defined.
